(** * Shared Logistics Platform: front-end pooling, quote and API-client logic

    A shallow embedding of the TypeScript sources of the platform's front end:

    - [frontend/components/pooling/pooling-dashboard.tsx]: the mock opportunity
      list and the dashboard filter;
    - [frontend/components/pooling/pooling-card.tsx]: the countdown of a card;
    - [frontend/components/quote/quote-calculator.tsx] and
      [frontend/components/shipment/steps/review-step.tsx]: the simulated
      quote computations;
    - [frontend/components/shipment/shipment-form.tsx] and
      [steps/freight-step.tsx]: the zod schema of the shipment wizard;
    - [frontend/lib/api.ts]: the [fetchAPI] helper and the quote endpoints;
    - [frontend/components/quote/quote-result.tsx],
      [frontend/components/pooling/pooling-stats.tsx]: the count-up animations;
    - [frontend/lib/auth-context.tsx]: the authentication provider.

    JavaScript numbers are modelled by exact rationals ([Q]) where the code
    divides or multiplies by decimal constants, and by [Z] where the code only
    holds whole numbers (dollar amounts of the mock data, minutes, counts). *)

From Stdlib Require Import ZArith QArith Qround Qabs Lqa Lia String Ascii List Bool.
From Stdlib Require Import DecimalString DecimalZ.
From stdpp Require Import base list strings gmap.
Import ListNotations.

Local Open Scope Z_scope.

(** ** JavaScript primitives used by the components *)

Module JS.

(** [Math.round(x)]: the integer nearest to [x], ties going towards
    +infinity, that is [floor (x + 1/2)]. *)
Definition Math_round (x : Q) : Z := Qfloor (x + (1 # 2))%Q.

(** [Math.max(a, b)] on whole numbers. *)
Definition Math_max (a b : Z) : Z := Z.max a b.

(** [s.includes(sub)]: [sub] occurs in [s] as a contiguous run. The empty
    string occurs in every string. *)
Fixpoint includes (s sub : string) : bool :=
  if String.prefix sub s then true
  else match s with
       | EmptyString => false
       | String _ rest => includes rest sub
       end.

(** [String.prototype.toLowerCase] restricted to the ASCII letters; the
    other code units are left as they are. *)
Definition lower_ascii (c : ascii) : ascii :=
  let n := nat_of_ascii c in
  if (Nat.leb 65 n && Nat.leb n 90)%bool then ascii_of_nat (n + 32) else c.

Fixpoint ascii_toLowerCase (s : string) : string :=
  match s with
  | EmptyString => EmptyString
  | String c rest => String (lower_ascii c) (ascii_toLowerCase rest)
  end.

(** Truthiness of a string: [if (s)] holds for the non-empty strings. *)
Definition truthy_string (s : string) : bool :=
  match s with EmptyString => false | _ => true end.

End JS.

(** ** The pooling dashboard *)

Module Shipment.
Record t := mk
  { id : string; weight : Z; ft : Z; origin : string; dest : string }.
End Shipment.

Module Place.
Record t := mk { city : string; state : string }.
End Place.

Module Pooling.
Import JS.

(** An element of [mockOpportunities]; all amounts are whole dollars. *)
Record opportunity := mkOpp
  { id : string;
    matchScore : Z;
    shipmentsCount : Z;
    origin : Place.t;
    destination : Place.t;
    totalSavings : Z;
    savingsPercent : Z;
    individualCost : Z;
    pooledCost : Z;
    timeRemaining : Z;
    equipment : string;
    shipments : list Shipment.t }.

Local Open Scope string_scope.

Definition mockOpportunities : list opportunity :=
  [ mkOpp "POOL-001" 92 3 (Place.mk "Los Angeles" "CA") (Place.mk "Dallas" "TX")
      1240 28 4428 3188 45 "Dry Van"
      [ Shipment.mk "SHP-001" 12000 18 "Los Angeles, CA" "Dallas, TX";
        Shipment.mk "SHP-002" 8500 12 "San Diego, CA" "Austin, TX";
        Shipment.mk "SHP-003" 6200 10 "Riverside, CA" "Houston, TX" ];
    mkOpp "POOL-002" 87 2 (Place.mk "Chicago" "IL") (Place.mk "Atlanta" "GA")
      890 24 3708 2818 120 "Reefer"
      [ Shipment.mk "SHP-004" 15000 22 "Chicago, IL" "Atlanta, GA";
        Shipment.mk "SHP-005" 9800 14 "Milwaukee, WI" "Birmingham, AL" ];
    mkOpp "POOL-003" 78 4 (Place.mk "Seattle" "WA") (Place.mk "Phoenix" "AZ")
      1580 32 4937 3357 30 "Dry Van"
      [ Shipment.mk "SHP-006" 7200 10 "Seattle, WA" "Phoenix, AZ";
        Shipment.mk "SHP-007" 5400 8 "Portland, OR" "Tucson, AZ";
        Shipment.mk "SHP-008" 8900 12 "Tacoma, WA" "Mesa, AZ";
        Shipment.mk "SHP-009" 4100 6 "Spokane, WA" "Scottsdale, AZ" ];
    mkOpp "POOL-004" 95 2 (Place.mk "New York" "NY") (Place.mk "Miami" "FL")
      1120 26 4307 3187 90 "Dry Van"
      [ Shipment.mk "SHP-010" 18000 26 "New York, NY" "Miami, FL";
        Shipment.mk "SHP-011" 11000 16 "Newark, NJ" "Fort Lauderdale, FL" ];
    mkOpp "POOL-005" 81 3 (Place.mk "Denver" "CO") (Place.mk "Las Vegas" "NV")
      720 22 3272 2552 60 "Flatbed"
      [ Shipment.mk "SHP-012" 20000 24 "Denver, CO" "Las Vegas, NV";
        Shipment.mk "SHP-013" 12500 18 "Boulder, CO" "Henderson, NV";
        Shipment.mk "SHP-014" 8000 10 "Colorado Springs, CO" "Reno, NV" ];
    mkOpp "POOL-006" 89 2 (Place.mk "Boston" "MA") (Place.mk "Philadelphia" "PA")
      480 18 2666 2186 180 "Reefer"
      [ Shipment.mk "SHP-015" 9500 14 "Boston, MA" "Philadelphia, PA";
        Shipment.mk "SHP-016" 7200 10 "Providence, RI" "Trenton, NJ" ] ].

(** The callback of [mockOpportunities.filter] in [PoolingDashboard]. The
    lower-casing function is a parameter of the section: the dashboard
    calls the engine's [toLowerCase], of which [JS.ascii_toLowerCase] is the
    restriction to ASCII. *)
Section Filter.
Variable toLowerCase : string -> string.

Definition keeps (searchQuery originState destState equipment_ : string)
    (opp : opportunity) : bool :=
  if negb (originState =? "all") && negb (Place.state (origin opp) =? originState)
  then false
  else if negb (destState =? "all") && negb (Place.state (destination opp) =? destState)
  then false
  else if negb (equipment_ =? "all") && negb (equipment opp =? equipment_)
  then false
  else if truthy_string searchQuery then
    let query := toLowerCase searchQuery in
    includes (toLowerCase (Place.city (origin opp))) query
    || includes (toLowerCase (Place.city (destination opp))) query
    || includes (toLowerCase (id opp)) query
  else true.

Definition filterOpportunities (opps : list opportunity)
    (searchQuery originState destState equipment_ : string) : list opportunity :=
  List.filter (keeps searchQuery originState destState equipment_) opps.

Definition filteredOpportunities := filterOpportunities mockOpportunities.
End Filter.

(** The quotient the spec rounds: savings over individual cost, in percent. *)
Definition savings_ratio (o : opportunity) : Q :=
  (inject_Z (individualCost o - pooledCost o) / inject_Z (individualCost o) * 100)%Q.

(** The state update of the card's interval timer:
    [setTimeLeft((prev) => Math.max(0, prev - 1))], in whole minutes. *)
Definition tick (prev : Z) : Z := Math_max 0 (prev - 1).

(** [timeLeft] after [n] firings of the timer, starting from
    [opportunity.timeRemaining]. *)
Definition timeLeft (timeRemaining0 : Z) (n : nat) : Z :=
  Nat.iter n tick timeRemaining0.

End Pooling.

(** ** The simulated quote computations *)

Module QuoteCalculator.
Import JS.
Local Open Scope Q_scope.

(** The local constants of [handleCalculate] before rounding. [r1], [r2]
    and [r3] are the three successive results of [Math.random()]. *)
Record amounts := mkAmounts
  { baseRate' : Q;
    fuelSurcharge' : Q;
    poolingDiscount' : Q;
    total' : Q;
    marketAverage' : Q;
    poolingProbability' : Q;
    additionalSavings' : Q }.

Definition calculate (r1 r2 r3 : Q) : amounts :=
  let baseRate := 1800 + r1 * 800 in
  let fuelSurcharge := baseRate * 0.18 in
  let poolingDiscount := baseRate * 0.22 in
  let total := baseRate + fuelSurcharge - poolingDiscount in
  let marketAverage := total * 1.35 in
  let poolingProbability := 65 + r2 * 25 in
  let additionalSavings := baseRate * 0.12 + r3 * 100 in
  mkAmounts baseRate fuelSurcharge poolingDiscount total marketAverage
    poolingProbability additionalSavings.

(** The object passed to [setQuote]. *)
Record quote := mkQuote
  { baseRate : Z;
    fuelSurcharge : Z;
    poolingDiscount : Z;
    total : Z;
    marketAverage : Z;
    poolingProbability : Z;
    additionalSavings : Z }.

Definition handleCalculate (r1 r2 r3 : Q) : quote :=
  let a := calculate r1 r2 r3 in
  mkQuote (Math_round (baseRate' a)) (Math_round (fuelSurcharge' a))
    (Math_round (poolingDiscount' a)) (Math_round (total' a))
    (Math_round (marketAverage' a)) (Math_round (poolingProbability' a))
    (Math_round (additionalSavings' a)).

(** The individual price of the shipment: base rate plus fuel surcharge,
    no discount. *)
Definition individualPrice (a : amounts) : Q := baseRate' a + fuelSurcharge' a.

End QuoteCalculator.

Module ReviewStep.
Import JS.
Local Open Scope Q_scope.

Record amounts := mkAmounts
  { baseRate' : Q;
    fuelSurcharge' : Q;
    poolingDiscount' : Q;
    finalPrice' : Q;
    marketRate' : Q }.

(** The timer callback of the [useEffect] of [ReviewStep]; [r] is the one
    result of [Math.random()]. *)
Definition calculate (r : Q) : amounts :=
  let baseRate := 850 + r * 400 in
  let fuelSurcharge := baseRate * 0.18 in
  let poolingDiscount := baseRate * 0.23 in
  let finalPrice := baseRate + fuelSurcharge - poolingDiscount in
  let marketRate := baseRate * 1.35 in
  mkAmounts baseRate fuelSurcharge poolingDiscount finalPrice marketRate.

Record quote := mkQuote
  { baseRate : Z;
    fuelSurcharge : Z;
    poolingDiscount : Z;
    finalPrice : Z;
    marketRate : Z;
    poolingProbability : Z;
    potentialSavings : Z }.

Definition simulateQuote (r : Q) : quote :=
  let a := calculate r in
  mkQuote (Math_round (baseRate' a)) (Math_round (fuelSurcharge' a))
    (Math_round (poolingDiscount' a)) (Math_round (finalPrice' a))
    (Math_round (marketRate' a)) 78
    (Math_round (poolingDiscount' a * 1.5)).

Definition individualPrice (a : amounts) : Q := baseRate' a + fuelSurcharge' a.

End ReviewStep.

(** A draw of [Math.random()]: a number in [0, 1). *)
Definition random_draw (r : Q) : Prop := (0 <= r /\ r < 1)%Q.

(** An amount of dollars that is a whole number of cents. *)
Definition whole_cents (x : Q) : Prop := exists c : Z, (x * 100 == inject_Z c)%Q.

(** [stored] is [raw] rounded to the nearest integer, a tie going up. *)
Definition rounds_half_up (raw : Q) (stored : Z) : Prop :=
  (raw - (1 # 2) < inject_Z stored /\ inject_Z stored <= raw + (1 # 2))%Q.

(** ** The shipment wizard: zod schema and linear-feet slider *)

Module ShipmentForm.
Local Open Scope bool_scope.

(** A JavaScript [number] as zod receives it. *)
Inductive number := NaN | PosInfinity | NegInfinity | Finite (q : Q).

(** [x < c] and [x > c] for a finite constant [c]; both are false on NaN. *)
Definition lt (x : number) (c : Q) : bool :=
  match x with
  | NaN | PosInfinity => false
  | NegInfinity => true
  | Finite q => negb (Qle_bool c q)
  end.

Definition gt (x : number) (c : Q) : bool :=
  match x with
  | NaN | NegInfinity => false
  | PosInfinity => true
  | Finite q => negb (Qle_bool q c)
  end.

(** [z.number()]: the value is a number other than NaN. *)
Definition z_number (x : number) : bool :=
  match x with NaN => false | _ => true end.

(** [.min(c)] and [.max(c)] raise an issue when [x < c], respectively
    [x > c]. *)
Definition z_min (c : Q) (x : number) : bool := negb (lt x c).
Definition z_max (c : Q) (x : number) : bool := negb (gt x c).

(** [z.string().min(n)]: an issue when [s.length < n]. *)
Definition z_string_min (n : nat) (s : string) : bool :=
  Nat.leb n (String.length s).

(** [z.date(...)]: the value is present and a valid date (its time value). *)
Definition z_date (d : option Z) : bool :=
  match d with Some _ => true | None => false end.

(** The values of the form, as handed to the resolver. *)
Record values := mkValues
  { originAddress : string; originCity : string; originState : string;
    originZip : string; pickupDate : option Z;
    pickupTimeFrom : string; pickupTimeTo : string;
    originContact : string; originPhone : string;
    originInstructions : option string;
    destAddress : string; destCity : string; destState : string;
    destZip : string; deliveryDate : option Z;
    deliveryTimeFrom : string; deliveryTimeTo : string;
    destContact : string; destPhone : string;
    appointmentRequired : option bool; liftgateRequired : option bool;
    destInstructions : option string;
    weight : number; length : number; width : number; height : number;
    linearFeet : number; palletCount : number;
    equipmentType : string; commodityType : string;
    stackable : option bool; hazmat : option bool }.

(** The check of the [linearFeet] key: [z.number().min(1).max(53)]. *)
Definition linearFeet_ok (x : number) : bool :=
  z_number x && z_min 1 x && z_max 53 x.

(** [shipmentSchema.safeParse(v).success]: every key passes its checks.
    Optional strings and defaulted booleans raise no issue. *)
Definition shipmentSchema (v : values) : bool :=
  z_string_min 1 (originAddress v) && z_string_min 1 (originCity v)
  && z_string_min 1 (originState v) && z_string_min 5 (originZip v)
  && z_date (pickupDate v)
  && z_string_min 1 (pickupTimeFrom v) && z_string_min 1 (pickupTimeTo v)
  && z_string_min 1 (originContact v) && z_string_min 10 (originPhone v)
  && z_string_min 1 (destAddress v) && z_string_min 1 (destCity v)
  && z_string_min 1 (destState v) && z_string_min 5 (destZip v)
  && z_date (deliveryDate v)
  && z_string_min 1 (deliveryTimeFrom v) && z_string_min 1 (deliveryTimeTo v)
  && z_string_min 1 (destContact v) && z_string_min 10 (destPhone v)
  && (z_number (weight v) && z_min 1 (weight v))
  && (z_number (length v) && z_min 1 (length v))
  && (z_number (width v) && z_min 1 (width v))
  && (z_number (height v) && z_min 1 (height v))
  && linearFeet_ok (linearFeet v)
  && (z_number (palletCount v) && z_min 1 (palletCount v))
  && z_string_min 1 (equipmentType v) && z_string_min 1 (commodityType v).

(** A filled-in form, for the examples. *)
Definition sample_values : values :=
  mkValues "1 Main St" "Los Angeles" "CA" "90001" (Some 0%Z) "08:00" "17:00"
    "Ann" "5551234567" None
    "2 Elm St" "Dallas" "TX" "75201" (Some 86400000%Z) "08:00" "17:00"
    "Bob" "5557654321" None None None
    (Finite 12000) (Finite 48) (Finite 40) (Finite 48) (Finite 18) (Finite 6)
    "dry-van" "general" None None.

(** The linear-feet sliders. The [Slider] component comes from the UI
    library; a slider is taken as a function from its [min], [max] and
    [step] properties and the pointer position to the value it reports
    through [onValueChange]. *)
Definition slider := Z -> Z -> Z -> Q -> Z.

(** What the library promises: the reported value lies between [min] and
    [max]. *)
Definition respects_bounds (s : slider) : Prop :=
  forall min max step pos, (min <= max)%Z -> (min <= s min max step pos <= max)%Z.

(** The usual implementation: snap the position to the nearest step, then
    clamp. *)
Definition snapping_slider : slider := fun min max step pos =>
  let snapped := (JS.Math_round ((pos - inject_Z min) / inject_Z step) * step + min)%Z in
  Z.min max (Z.max min snapped).

Section Sliders.
Variable Slider : slider.

(** [QuoteCalculator]: [useState([20])], and
    [<Slider value={linearFeet} onValueChange={setLinearFeet}
       min={1} max={53} step={1} />]. *)
Definition linearFeet0 : list Z := [20%Z].

Definition onValueChange (pos : Q) (_ : list Z) : list Z := [Slider 1 53 1 pos].

(** The state after the pointer positions [moves], the latest first. *)
Definition linearFeetAfter (moves : list Q) : list Z :=
  fold_right onValueChange linearFeet0 moves.

(** [FreightStep]: the same slider bound to the form key, starting from
    the default value 6: [onValueChange={(value) => field.onChange(value[0])}]. *)
Definition field_onChange (pos : Q) (_ : Z) : Z := Slider 1 53 1 pos.

Definition fieldAfter (moves : list Q) : Z := fold_right field_onChange 6%Z moves.
End Sliders.

End ShipmentForm.

(** ** The API client *)

Module Api.
Local Open Scope string_scope.

(** A value produced by [response.json()]. *)
#[local] Set Warnings "-register-all".
Inductive json :=
| JNull
| JBool (b : bool)
| JNum (q : Q)
| JStr (s : string)
| JArr (items : list json)
| JObj (members : list (string * json)).

(** [v.error] on a parsed value: [None] stands for the [TypeError] of a
    property read on [null], [Some None] for [undefined]. In an object
    the last member of that name counts. *)
Fixpoint last_member (name : string) (members : list (string * json)) : option json :=
  match members with
  | [] => None
  | (k, v) :: rest =>
      match last_member name rest with
      | Some w => Some w
      | None => if k =? name then Some v else None
      end
  end.

Definition get_error (v : json) : option (option json) :=
  match v with
  | JNull => None
  | JObj members => Some (last_member "error" members)
  | _ => Some None
  end.

(** Truthiness, as [||] tests it. *)
Definition truthy (v : option json) : bool :=
  match v with
  | None | Some JNull => false
  | Some (JBool b) => b
  | Some (JNum q) => negb (Qeq_bool q 0)
  | Some (JStr s) => JS.truthy_string s
  | Some (JArr _) | Some (JObj _) => true
  end.

Record RequestInit := mkInit
  { method : option string;
    headers : list (string * string);
    body : option string }.

(** What the client reads of a [Response]; [json_body] is [None] when the
    promise of [response.json()] rejects (the body is not JSON). *)
Record Response := mkResponse
  { ok : bool; status : Z; json_body : option json }.

(** The message given to [new Error]: the text of a value of the server, or
    the template [API Error: <status>]. *)
Inductive message :=
| TextOf (v : json)
| ApiErrorStatus (status : Z).

Inductive exception :=
| Error (m : message)        (* [throw new Error(...)] of [fetchAPI] *)
| TypeError                  (* a property read on [null] *)
| BodyError                  (* the rejection of [response.json()] *)
| NetworkError.              (* the rejection of [fetch] *)

(** How the promise of an [async] call settles. *)
Inductive outcome (A : Type) :=
| Returned (a : A)
| Thrown (e : exception).
Arguments Returned {A} a.
Arguments Thrown {A} e.

Definition API_BASE (NEXT_PUBLIC_API_URL : option string) : string :=
  match NEXT_PUBLIC_API_URL with
  | Some u => if JS.truthy_string u then u else "http://localhost:8000/api/v1"
  | None => "http://localhost:8000/api/v1"
  end.

Definition defaultHeaders : list (string * string) :=
  [("Content-Type", "application/json")].

Section Client.
Variable env_url : option string.
(** The network: [None] when [fetch] itself rejects. *)
Variable fetch : string -> RequestInit -> option Response.

(** The headers are the default ones followed by those of [options]: in
    the spread object a later entry of the same name wins. *)
Definition fetchAPI (endpoint : string) (options : RequestInit) : outcome json :=
  let url := API_BASE env_url ++ endpoint in
  match fetch url
          (mkInit (method options) (defaultHeaders ++ headers options) (body options)) with
  | None => Thrown NetworkError
  | Some response =>
      if negb (ok response) then
        let error :=
          match json_body response with
          | Some v => v
          | None => JObj [("error", JStr "Unknown error")]
          end in
        match get_error error with
        | None => Thrown TypeError
        | Some e =>
            if truthy e
            then Thrown (Error (TextOf (default JNull e)))
            else Thrown (Error (ApiErrorStatus (status response)))
        end
      else
        match json_body response with
        | Some v => Returned v
        | None => Thrown BodyError
        end
  end.

(** The request [fetchAPI] hands to [fetch]. *)
Definition sent (endpoint : string) (options : RequestInit) : option Response :=
  fetch (API_BASE env_url ++ endpoint)
    (mkInit (method options) (defaultHeaders ++ headers options) (body options)).

(** [api.quotes.accept]. *)
Definition quotes_accept (id : string) : outcome json :=
  fetchAPI ("/quotes/" ++ id ++ "/accept") (mkInit (Some "POST") [] None).
End Client.

(** Whether the call raised. *)
Definition raised {A} (o : outcome A) : bool :=
  match o with Thrown _ => true | Returned _ => false end.

End Api.

(** ** Quote acceptance on the server *)

Module QuoteIssuer.

(** The [Quote] of [lib/api.ts]; amounts in dollars, [valid_until] as the
    instant its timestamp denotes (milliseconds). *)
Record Quote := mkQuote
  { id : string;
    shipment_id : string;
    base_rate : Q;
    fuel_surcharge : Q;
    pooling_discount : Q;
    total_price : Q;
    pooling_probability : Q;
    valid_until : Z;
    status : string }.

Inductive condition := Invalid | Expired | Conflict | Busy | Unavailable.

Inductive acceptance :=
| Confirmed (quote_id : string)
| Failed (c : condition).

(** Modelled from the spec: the handler of [POST /quotes/{id}/accept] lives
    in the Python backend ([src/api/routes]), which is not among the
    sources; the client only calls it. Following the spec, acceptance at
    the instant [now] succeeds strictly before [valid_until] and fails with
    [Expired] otherwise. *)
Definition accept (now : Z) (q : Quote) : acceptance :=
  if (now <? valid_until q)%Z then Confirmed (id q) else Failed Expired.

End QuoteIssuer.

(** ** More JavaScript primitives *)

Module JSText.

(** [n.toString()] and the interpolation of a whole number [n] in a template
    literal: its decimal digits, after a minus sign when negative. *)
Definition Number_toString (n : Z) : string :=
  NilZero.string_of_int (Z.to_int n).

(** [Math.floor(a / b)] on whole numbers with [b] positive, and [a % b]
    (the remainder has the sign of [a]). *)
Definition floor_div (a b : Z) : Z := a / b.
Definition remainder (a b : Z) : Z := Z.rem a b.

(** Whether the character [c] occurs in [s]. *)
Fixpoint occurs (c : ascii) (s : string) : bool :=
  match s with
  | EmptyString => false
  | String a rest => Ascii.eqb a c || occurs c rest
  end.

End JSText.

(** ** The pooling card: time display, progress bar and execute button *)

Module PoolingCard.
Import JS JSText.
Local Open Scope string_scope.

(** [formatTime]. *)
Definition formatTime (minutes : Z) : string :=
  if (minutes <? 60)%Z then Number_toString minutes ++ "m"
  else
    let hours := floor_div minutes 60 in
    let mins := remainder minutes 60 in
    Number_toString hours ++ "h " ++ Number_toString mins ++ "m".

(** The [value] handed to [Progress]:
    [(opportunity.pooledCost / opportunity.individualCost) * 100]. *)
Definition progressValue (o : Pooling.opportunity) : Q :=
  (inject_Z (Pooling.pooledCost o) / inject_Z (Pooling.individualCost o) * 100)%Q.

(** The execute button. [isExecuting] is the state of the card; [pending]
    counts the timeouts that [handleExecute] has set and that have not fired
    yet. *)
Record state := mkState { isExecuting : bool; pending : nat }.

Inductive event :=
| Click      (* a click on [Execute Pool] *)
| Timeout.   (* a pending [setTimeout] callback fires *)

Definition initial : state := mkState false 0.

(** The button carries [disabled={isExecuting}]: a click on it while disabled
    does not reach [handleExecute]. A timeout can only fire if one is
    pending. *)
Definition step (s : state) (e : event) : state :=
  match e with
  | Click =>
      if isExecuting s then s
      else mkState true (S (pending s))
  | Timeout =>
      match pending s with
      | O => s
      | S n => mkState false n
      end
  end.

Definition run (events : list event) : state := fold_left step events initial.

End PoolingCard.

(** ** Count-up animations *)

Module CountUp.
Import JS.

(** Both [QuoteResult] and [PoolingStats] count a displayed number up to its
    target with an interval timer: on each firing [step++], then the display
    is [Math.round(target * (step / steps))], and the timer is cleared once
    [step >= steps]. *)
Definition shown (steps : Z) (target : Q) (step : Z) : Z :=
  Math_round (target * (inject_Z step / inject_Z steps))%Q.

Record timer := mkTimer { step : Z; display : Z; running : bool }.

(** The timer when the effect starts; [display0] is what is on screen at
    that moment (0 at first, the figures of the quote before for a later
    quote). *)
Definition start (display0 : Z) : timer := mkTimer 0 display0 true.

(** One firing of the interval; a cleared interval does not fire. *)
Definition fire (steps : Z) (target : Q) (t : timer) : timer :=
  if running t then
    let step' := step t + 1 in
    mkTimer step' (shown steps target step') (negb (steps <=? step'))
  else t.

Definition after (steps : Z) (target : Q) (display0 : Z) (n : nat) : timer :=
  Nat.iter n (fire steps target) (start display0).

End CountUp.

Module QuoteResult.
Import JS.

(** [steps] of the animation of [QuoteResult]. *)
Definition steps : Z := 40.

(** [savingsPercent], the figure of the "% Below Market" badge. *)
Definition savingsPercent (quote : QuoteCalculator.quote) : Z :=
  Math_round
    ((inject_Z (QuoteCalculator.marketAverage quote) - inject_Z (QuoteCalculator.total quote))
     / inject_Z (QuoteCalculator.marketAverage quote) * 100)%Q.

(** The width, in percent, of the "Our Price" bar:
    [(quote.total / quote.marketAverage) * 100]. *)
Definition barWidth (quote : QuoteCalculator.quote) : Q :=
  (inject_Z (QuoteCalculator.total quote)
   / inject_Z (QuoteCalculator.marketAverage quote) * 100)%Q.

End QuoteResult.

Module PoolingStats.

(** [steps] of [animate], and the three targets. *)
Definition steps : Z := 60.
Definition successRate : Q := 92.
Definition avgSavings : Q := 26.
Definition monthTotal : Q := 48500.

End PoolingStats.

(** ** The quote calculator as a state machine *)

Module CalculatorUI.
Import JS.

(** The state of [QuoteCalculator]; [pending] counts the timeouts set by
    [handleCalculate] that have not fired yet. *)
Record state := mkState
  { originZip : string;
    destZip : string;
    weight : string;
    linearFeet : list Z;
    equipment : string;
    isCalculating : bool;
    quote : option QuoteCalculator.quote;
    pending : nat }.

Definition initial : state :=
  mkState "" "" "" [20] "dry-van" false None 0.

(** [isFormValid]: both ZIP codes have at least five characters and the
    weight is not empty. *)
Definition isFormValid (s : state) : bool :=
  Nat.leb 5 (String.length (originZip s))
  && Nat.leb 5 (String.length (destZip s))
  && truthy_string (weight s).

(** The button carries [disabled={!isFormValid || isCalculating}]. *)
Definition disabled (s : state) : bool := negb (isFormValid s) || isCalculating s.

Inductive event :=
| SetOriginZip (v : string)
| SetDestZip (v : string)
| SetWeight (v : string)
| SetLinearFeet (v : list Z)
| SetEquipment (v : string)
| Click                          (* a click on [Get Instant Quote] *)
| Timeout (r1 r2 r3 : Q).        (* a pending timeout fires and draws *)

Definition step (s : state) (e : event) : state :=
  match e with
  | SetOriginZip v =>
      mkState v (destZip s) (weight s) (linearFeet s) (equipment s)
        (isCalculating s) (quote s) (pending s)
  | SetDestZip v =>
      mkState (originZip s) v (weight s) (linearFeet s) (equipment s)
        (isCalculating s) (quote s) (pending s)
  | SetWeight v =>
      mkState (originZip s) (destZip s) v (linearFeet s) (equipment s)
        (isCalculating s) (quote s) (pending s)
  | SetLinearFeet v =>
      mkState (originZip s) (destZip s) (weight s) v (equipment s)
        (isCalculating s) (quote s) (pending s)
  | SetEquipment v =>
      mkState (originZip s) (destZip s) (weight s) (linearFeet s) v
        (isCalculating s) (quote s) (pending s)
  | Click =>
      if disabled s then s
      else mkState (originZip s) (destZip s) (weight s) (linearFeet s) (equipment s)
             true (quote s) (S (pending s))
  | Timeout r1 r2 r3 =>
      match pending s with
      | O => s
      | S n =>
          mkState (originZip s) (destZip s) (weight s) (linearFeet s) (equipment s)
            false (Some (QuoteCalculator.handleCalculate r1 r2 r3)) n
      end
  end.

Definition run (events : list event) : state := fold_left step events initial.

(** The button was clicked at a moment when the form was valid. *)
Definition clicked_when_valid (events : list event) : Prop :=
  exists before after,
    events = before ++ Click :: after /\ isFormValid (run before) = true.

End CalculatorUI.

(** ** The shipment wizard: steps, navigation and gating *)

Module Wizard.
Import ShipmentForm.
Local Open Scope bool_scope.

(** [steps] of [ShipmentForm]. *)
Record Step := mkStep { id : Z; title : string; description : string }.

Definition steps : list Step :=
  [ mkStep 1 "Origin" "Pickup location";
    mkStep 2 "Destination" "Delivery location";
    mkStep 3 "Freight" "Cargo details";
    mkStep 4 "Review" "Confirm & book" ].

(** [nextStep] and [prevStep], as functions of [currentStep]. *)
Definition nextStep (currentStep : Z) : Z :=
  if currentStep <? 4 then currentStep + 1 else currentStep.

Definition prevStep (currentStep : Z) : Z :=
  if 1 <? currentStep then currentStep - 1 else currentStep.

(** The circle of a step in [StepIndicator]: a check mark when
    [currentStep > step.id], highlighted when [currentStep === step.id],
    muted otherwise. *)
Inductive circle := Completed | Current | Upcoming.

Definition circleOf (currentStep : Z) (step : Step) : circle :=
  if id step <? currentStep then Completed
  else if currentStep =? id step then Current
  else Upcoming.

Definition StepIndicator (steps : list Step) (currentStep : Z) : list circle :=
  map (circleOf currentStep) steps.

(** [form.trigger] of [OriginStep.handleNext]: the nine keys it names pass
    their checks. *)
Definition origin_trigger (v : values) : bool :=
  z_string_min 1 (originAddress v) && z_string_min 1 (originCity v)
  && z_string_min 1 (originState v) && z_string_min 5 (originZip v)
  && z_date (pickupDate v)
  && z_string_min 1 (pickupTimeFrom v) && z_string_min 1 (pickupTimeTo v)
  && z_string_min 1 (originContact v) && z_string_min 10 (originPhone v).

(** [form.trigger] of [FreightStep.handleNext]. *)
Definition freight_trigger (v : values) : bool :=
  (z_number (weight v) && z_min 1 (weight v))
  && (z_number (length v) && z_min 1 (length v))
  && (z_number (width v) && z_min 1 (width v))
  && (z_number (height v) && z_min 1 (height v))
  && linearFeet_ok (linearFeet v)
  && (z_number (palletCount v) && z_min 1 (palletCount v))
  && z_string_min 1 (equipmentType v) && z_string_min 1 (commodityType v).

(** The values after the user worked on the fields of one step: the keys of
    that step come from [e], the others stay as in [v]. *)
Definition with_origin (e v : values) : values :=
  mkValues (originAddress e) (originCity e) (originState e) (originZip e)
    (pickupDate e) (pickupTimeFrom e) (pickupTimeTo e) (originContact e)
    (originPhone e) (originInstructions e)
    (destAddress v) (destCity v) (destState v) (destZip v) (deliveryDate v)
    (deliveryTimeFrom v) (deliveryTimeTo v) (destContact v) (destPhone v)
    (appointmentRequired v) (liftgateRequired v) (destInstructions v)
    (weight v) (length v) (width v) (height v) (linearFeet v) (palletCount v)
    (equipmentType v) (commodityType v) (stackable v) (hazmat v).

Definition with_destination (e v : values) : values :=
  mkValues (originAddress v) (originCity v) (originState v) (originZip v)
    (pickupDate v) (pickupTimeFrom v) (pickupTimeTo v) (originContact v)
    (originPhone v) (originInstructions v)
    (destAddress e) (destCity e) (destState e) (destZip e) (deliveryDate e)
    (deliveryTimeFrom e) (deliveryTimeTo e) (destContact e) (destPhone e)
    (appointmentRequired e) (liftgateRequired e) (destInstructions e)
    (weight v) (length v) (width v) (height v) (linearFeet v) (palletCount v)
    (equipmentType v) (commodityType v) (stackable v) (hazmat v).

Definition with_freight (e v : values) : values :=
  mkValues (originAddress v) (originCity v) (originState v) (originZip v)
    (pickupDate v) (pickupTimeFrom v) (pickupTimeTo v) (originContact v)
    (originPhone v) (originInstructions v)
    (destAddress v) (destCity v) (destState v) (destZip v) (deliveryDate v)
    (deliveryTimeFrom v) (deliveryTimeTo v) (destContact v) (destPhone v)
    (appointmentRequired v) (liftgateRequired v) (destInstructions v)
    (weight e) (length e) (width e) (height e) (linearFeet e) (palletCount e)
    (equipmentType e) (commodityType e) (stackable e) (hazmat e).

Record state := mkState { currentStep : Z; formValues : values }.

Inductive event :=
| Edit (e : values)   (* the user fills in fields of the step on screen *)
| Next                (* the [Continue] button of the step on screen *)
| Back.               (* its [Back] button *)

Section Machine.
(** [DestinationStep] is not among the sources: whether its button calls
    [onNext] is a parameter. *)
Variable destination_trigger : values -> bool.

(** Only the component of the current step is rendered. The review step has
    no input; the origin step has no [Back] button. *)
Definition step (s : state) (e : event) : state :=
  let c := currentStep s in
  let v := formValues s in
  match e with
  | Edit e =>
      if c =? 1 then mkState c (with_origin e v)
      else if c =? 2 then mkState c (with_destination e v)
      else if c =? 3 then mkState c (with_freight e v)
      else s
  | Next =>
      if c =? 1 then (if origin_trigger v then mkState (nextStep c) v else s)
      else if c =? 2 then (if destination_trigger v then mkState (nextStep c) v else s)
      else if c =? 3 then (if freight_trigger v then mkState (nextStep c) v else s)
      else s
  | Back =>
      if c =? 1 then s else mkState (prevStep c) v
  end.

Definition run (v0 : values) (events : list event) : state :=
  fold_left step events (mkState 1 v0).
End Machine.

(** The gates passed so far: the step is one of the four, the origin keys
    pass their checks past the first step, and the freight keys pass theirs
    on the review step. *)
Definition good (s : state) : Prop :=
  1 <= currentStep s <= 4
  /\ (2 <= currentStep s -> origin_trigger (formValues s) = true)
  /\ (currentStep s = 4 -> freight_trigger (formValues s) = true).

(** [Number.parseFloat(e.target.value) || 0] of the numeric inputs of the
    freight step, as a function of what [parseFloat] returned: NaN and zero
    are falsy. *)
Definition or_zero (parsed : number) : number :=
  match parsed with
  | NaN => Finite 0
  | Finite q => if Qeq_bool q 0 then Finite 0 else Finite q
  | other => other
  end.

End Wizard.

(** ** The API client: requests and query strings *)

Module ApiRequests.
Import JS JSText Api.
Local Open Scope string_scope.

(** The value of a header in an object of headers written as a list: the
    last entry of that name. *)
Fixpoint header (name : string) (hs : list (string * string)) : option string :=
  match hs with
  | [] => None
  | (k, v) :: rest =>
      match header name rest with
      | Some w => Some w
      | None => if k =? name then Some v else None
      end
  end.

(** The address and the options [fetchAPI] passes to [fetch]. *)
Definition request (env_url : option string) (endpoint : string) (options : RequestInit)
    : string * RequestInit :=
  (API_BASE env_url ++ endpoint,
   mkInit (method options) (defaultHeaders ++ headers options) (body options)).

(** The options of [api.auth.me(token)] and of [api.auth.logout(token)]. *)
Definition auth_me_options (token : string) : RequestInit :=
  mkInit None [("Authorization", "Bearer " ++ token)] None.

Definition auth_logout_options (token : string) : RequestInit :=
  mkInit (Some "POST") [("Authorization", "Bearer " ++ token)] None.

(** [URLSearchParams.toString()]: the pairs in order, joined by [&], each
    name and value percent-encoded byte by byte; letters, digits and
    [* - . _] stay, a space becomes [+]. *)
Definition hex_digit (n : nat) : ascii :=
  if Nat.ltb n 10 then ascii_of_nat (48 + n) else ascii_of_nat (55 + n).

Definition unreserved (c : ascii) : bool :=
  let n := nat_of_ascii c in
  (Nat.leb 48 n && Nat.leb n 57) || (Nat.leb 65 n && Nat.leb n 90)
  || (Nat.leb 97 n && Nat.leb n 122)
  || Nat.eqb n 42 || Nat.eqb n 45 || Nat.eqb n 46 || Nat.eqb n 95.

Definition encode_byte (c : ascii) : string :=
  if unreserved c then String c EmptyString
  else if Nat.eqb (nat_of_ascii c) 32 then "+"
  else String "%" (String (hex_digit (nat_of_ascii c / 16))
                     (String (hex_digit (nat_of_ascii c mod 16)) EmptyString)).

Fixpoint encode (s : string) : string :=
  match s with
  | EmptyString => EmptyString
  | String c rest => encode_byte c ++ encode rest
  end.

Fixpoint URLSearchParams_toString (params : list (string * string)) : string :=
  match params with
  | [] => ""
  | [(k, v)] => encode k ++ "=" ++ encode v
  | (k, v) :: rest => encode k ++ "=" ++ encode v ++ "&" ++ URLSearchParams_toString rest
  end.

(** The parameter of [api.shipments.list]; an absent key is [None]. *)
Record ListParams := mkListParams
  { status : option string; limit : option Z; offset : option Z }.

(** [if (params?.status) ...], [if (params?.limit) ...]: an absent key, an
    empty string and zero are falsy. *)
Definition truthy_text (v : option string) : bool :=
  match v with Some s => truthy_string s | None => false end.

Definition truthy_count (v : option Z) : bool :=
  match v with Some n => negb (n =? 0)%Z | None => false end.

Definition shipments_list_params (params : option ListParams) : list (string * string) :=
  match params with
  | None => []
  | Some p =>
      (if truthy_text (status p) then [("status", default "" (status p))] else [])
      ++ (if truthy_count (limit p)
          then [("limit", Number_toString (default 0%Z (limit p)))] else [])
      ++ (if truthy_count (offset p)
          then [("offset", Number_toString (default 0%Z (offset p)))] else [])
  end.

(** The endpoint [api.shipments.list] hands to [fetchAPI]. *)
Definition shipments_list_endpoint (params : option ListParams) : string :=
  let query := URLSearchParams_toString (shipments_list_params params) in
  "/shipments" ++ (if truthy_string query then "?" ++ query else "").

End ApiRequests.

(** ** The authentication provider *)

Module Auth.
Import JS Api.
Local Open Scope string_scope.

Inductive UserRole := shipper | carrier | admin.

Record User := mkUser
  { id : string;
    email : string;
    full_name : string;
    company_name : option string;
    phone : option string;
    role : UserRole;
    is_active : bool;
    created_at : string;
    updated_at : string }.

Record AuthToken := mkAuthToken
  { access_token : string;
    token_type : string;
    expires_in : Z;
    user_of : User }.

Definition TOKEN_KEY : string := "auth_token".
Definition USER_KEY : string := "auth_user".

(** The state of [AuthProvider] together with the [localStorage] of the
    page. *)
Record state := mkState
  { user : option User;
    token : option string;
    isLoading : bool;
    localStorage : gmap string string }.

(** The provider right after the page loaded, over what the storage holds. *)
Definition mounted (storage : gmap string string) : state :=
  mkState None None true storage.

Definition truthy_item (v : option string) : bool :=
  match v with Some s => truthy_string s | None => false end.

(** [isAuthenticated: !!user && !!token]. *)
Definition isAuthenticated (s : state) : bool :=
  match user s with Some _ => truthy_item (token s) | None => false end.

Section Provider.
(** [JSON.stringify] on users. *)
Variable JSON_stringify : User -> string.

(** [loadAuthState], the effect run on mount. [me] is how the promise of
    [api.auth.me] settles for each token. The responses of the server are
    taken at the types the client declares; storage operations are taken
    not to throw. *)
Definition loadAuthState (me : string -> outcome User) (s : state) : state :=
  let savedToken := localStorage s !! TOKEN_KEY in
  let savedUser := localStorage s !! USER_KEY in
  if truthy_item savedToken && truthy_item savedUser then
    match me (default "" savedToken) with
    | Returned currentUser =>
        mkState (Some currentUser) savedToken false
          (<[USER_KEY := JSON_stringify currentUser]> (localStorage s))
    | Thrown _ =>
        mkState (user s) (token s) false
          (delete USER_KEY (delete TOKEN_KEY (localStorage s)))
    end
  else mkState (user s) (token s) false (localStorage s).

(** [login] and [register]: [response] is how the promise of
    [api.auth.login(data)], respectively [api.auth.register(data)],
    settles. The second component is how the call itself settles. *)
Definition login (response : outcome AuthToken) (s : state) : state * outcome unit :=
  match response with
  | Returned r =>
      (mkState (Some (user_of r)) (Some (access_token r)) false
         (<[USER_KEY := JSON_stringify (user_of r)]>
            (<[TOKEN_KEY := access_token r]> (localStorage s))),
       Returned tt)
  | Thrown e =>
      (mkState (user s) (token s) false (localStorage s), Thrown e)
  end.

Definition register := login.

(** [logout]: the request is made only with a truthy token, and its failure
    is logged and dropped. *)
Definition logout (response : string -> outcome json) (s : state) : state * outcome unit :=
  (mkState None None (isLoading s)
     (delete USER_KEY (delete TOKEN_KEY (localStorage s))),
   Returned tt).

(** [updateProfile]. *)
Definition updateProfile (response : string -> outcome User) (s : state)
    : state * outcome unit :=
  if negb (truthy_item (token s))
  then (s, Thrown (Error (TextOf (JStr "Not authenticated"))))
  else
    match response (default "" (token s)) with
    | Returned updatedUser =>
        (mkState (Some updatedUser) (token s) (isLoading s)
           (<[USER_KEY := JSON_stringify updatedUser]> (localStorage s)),
         Returned tt)
    | Thrown e => (s, Thrown e)
    end.

(** The state agrees with the storage: nothing is loading, the user and
    the token are both set or both unset, and what is set is what the
    storage holds under the two keys. *)
Definition consistent (s : state) : Prop :=
  isLoading s = false
  /\ (user s = None <-> token s = None)
  /\ (forall t, token s = Some t -> localStorage s !! TOKEN_KEY = Some t)
  /\ (forall u, user s = Some u -> localStorage s !! USER_KEY = Some (JSON_stringify u)).

(** What a component wrapped by [withAuth] renders. *)
Inductive rendered := Spinner | RedirectToSignIn | ProtectedComponent.

Definition withAuth (s : state) : rendered :=
  if isLoading s then Spinner
  else if negb (isAuthenticated s) then RedirectToSignIn
  else ProtectedComponent.

(** A session: the mount effect, then calls of the provider's functions,
    one at a time. *)
Inductive call :=
| Login (response : outcome AuthToken)
| Register (response : outcome AuthToken)
| Logout (response : string -> outcome json)
| UpdateProfile (response : string -> outcome User).

Definition perform (s : state) (c : call) : state :=
  match c with
  | Login r => fst (login r s)
  | Register r => fst (register r s)
  | Logout r => fst (logout r s)
  | UpdateProfile r => fst (updateProfile r s)
  end.

Definition session (storage : gmap string string) (me : string -> outcome User)
    (calls : list call) : state :=
  fold_left perform calls (loadAuthState me (mounted storage)).
End Provider.

(** A user and a serialization, for the examples. *)
Definition sample_user : User :=
  mkUser "u-1" "ann@example.com" "Ann" None None shipper true "2024-01-01" "2024-01-01".

Definition sample_stringify (u : User) : string := "{email:" ++ email u ++ "}".

End Auth.
(** * Properties *)

(** ** Lists kept by a boolean filter *)

Section FilterLemmas.
Context {A : Type} (keep : A -> bool).

Lemma filter_keeps_Forall (P : A -> Prop) (l : list A) :
  Forall P l -> Forall P (List.filter keep l).
Proof.
  induction 1 as [|x l Hx _ IH]; simpl; [constructor|].
  destruct (keep x); [constructor|]; assumption.
Qed.

Lemma filter_is_sublist (l : list A) : List.filter keep l `sublist_of` l.
Proof.
  induction l as [|x l IH]; simpl; [constructor|].
  destruct (keep x); [apply sublist_skip | apply sublist_cons]; exact IH.
Qed.

Lemma filter_twice (l : list A) :
  List.filter keep (List.filter keep l) = List.filter keep l.
Proof.
  induction l as [|x l IH]; simpl; [reflexivity|].
  destruct (keep x) eqn:Hx; simpl; [rewrite Hx, IH|]; auto.
Qed.
End FilterLemmas.

(** ** The pooling dashboard and its cards *)

Module PoolingFacts.
Import JS Pooling.

(** C1. Every entry of the mock opportunity list, and so every entry the
    dashboard renders under any search query and any selection of origin
    state, destination state and equipment, has a pooled cost that is at
    most its individual cost. *)
Theorem surfaced_pool_never_at_a_loss :
  Forall (fun o => pooledCost o <= individualCost o) mockOpportunities /\
  forall toLowerCase searchQuery originState destState equipment_,
    Forall (fun o => pooledCost o <= individualCost o)
      (filteredOpportunities toLowerCase searchQuery originState destState equipment_).
Proof.
  assert (H : Forall (fun o => pooledCost o <= individualCost o) mockOpportunities).
  { unfold mockOpportunities. repeat constructor; simpl; lia. }
  split; [exact H|].
  intros. apply filter_keeps_Forall, H.
Qed.

(** C2. For every entry of the mock opportunity list, [savingsPercent] is
    the individual cost minus the pooled cost, over the individual cost,
    times 100, rounded to the nearest integer; it is not negative; and
    [totalSavings] is the individual cost minus the pooled cost. *)
Theorem savings_fields_consistent :
  Forall (fun o =>
            savingsPercent o = Math_round (savings_ratio o)
            /\ 0 <= savingsPercent o
            /\ totalSavings o = individualCost o - pooledCost o)
    mockOpportunities.
Proof.
  unfold mockOpportunities.
  repeat (constructor; [split; [vm_compute; reflexivity | simpl; lia] |]).
  constructor.
Qed.

(** The rounding of C2 does not sit on an edge: each exact percentage is
    within three thousandths of the stored integer, so the double-precision
    evaluation of the same expression rounds to the same integer. *)
Lemma savings_ratio_margin :
  Forall (fun o => (Qabs (savings_ratio o - inject_Z (savingsPercent o)) <= 1 # 100)%Q)
    mockOpportunities.
Proof.
  unfold mockOpportunities.
  repeat (constructor; [vm_compute; discriminate |]).
  constructor.
Qed.

(** C4. Every entry of the mock opportunity list has a [shipmentsCount]
    of 2, 3 or 4, equal to the length of its [shipments] array. *)
Theorem pool_groups_two_to_four :
  Forall (fun o =>
            In (shipmentsCount o) [2; 3; 4]
            /\ shipmentsCount o = Z.of_nat (List.length (shipments o)))
    mockOpportunities.
Proof.
  unfold mockOpportunities.
  repeat (constructor; [split; [simpl; tauto | reflexivity] |]).
  constructor.
Qed.

(** C7. The dashboard filter is a function of its inputs: equal opportunity
    lists, search queries and selections give equal results, in the same
    order; filtering the result again with the same inputs changes
    nothing; and the result is a subsequence of the input list. *)
Theorem filter_deterministic_subsequence
    (toLowerCase : string -> string) (opps : list opportunity)
    (searchQuery originState destState equipment_ : string) :
  (forall opps' searchQuery' originState' destState' equipment_',
      opps' = opps -> searchQuery' = searchQuery -> originState' = originState ->
      destState' = destState -> equipment_' = equipment_ ->
      filterOpportunities toLowerCase opps' searchQuery' originState' destState' equipment_'
      = filterOpportunities toLowerCase opps searchQuery originState destState equipment_)
  /\ filterOpportunities toLowerCase
       (filterOpportunities toLowerCase opps searchQuery originState destState equipment_)
       searchQuery originState destState equipment_
     = filterOpportunities toLowerCase opps searchQuery originState destState equipment_
  /\ filterOpportunities toLowerCase opps searchQuery originState destState equipment_
     `sublist_of` opps.
Proof.
  split; [|split].
  - intros ? ? ? ? ? -> -> -> -> ->. reflexivity.
  - apply filter_twice.
  - apply filter_is_sublist.
Qed.

(** The filter at work on the mock list: the query "dal" with the Texas
    destination keeps the first opportunity only. *)
Example filter_dallas :
  map id (filteredOpportunities ascii_toLowerCase "Dal" "all" "TX" "all")
  = ["POOL-001"%string].
Proof. reflexivity. Qed.

Example filter_reefer :
  map id (filteredOpportunities ascii_toLowerCase "" "all" "all" "Reefer")
  = ["POOL-002"%string; "POOL-006"%string].
Proof. reflexivity. Qed.

(** One tick never leaves a negative value, whatever the value before. *)
Lemma tick_nonneg (t : Z) : 0 <= tick t.
Proof. unfold tick, Math_max. lia. Qed.

Lemma timeLeft_succ (t0 : Z) (n : nat) : timeLeft t0 (S n) = tick (timeLeft t0 n).
Proof. reflexivity. Qed.

(** After [n] ticks the card shows [max 0 (t0 - n)]. *)
Lemma timeLeft_closed_form (t0 : Z) (n : nat) :
  0 <= t0 -> timeLeft t0 n = Z.max 0 (t0 - Z.of_nat n).
Proof.
  intros H0. induction n as [|n IH].
  - simpl. lia.
  - rewrite timeLeft_succ, IH. unfold tick, Math_max. lia.
Qed.

(** C9. Each tick replaces the current value [t] by [max 0 (t - 1)]; from
    a non-negative starting value the time left is non-negative after any
    number of ticks, and no tick increases it. *)
Theorem countdown_nonneg_nonincreasing (t0 : Z) (n : nat) :
  0 <= t0 ->
  timeLeft t0 (S n) = Z.max 0 (timeLeft t0 n - 1)
  /\ 0 <= timeLeft t0 n
  /\ timeLeft t0 (S n) <= timeLeft t0 n.
Proof.
  intros H0.
  assert (Hn : 0 <= timeLeft t0 n).
  { destruct n; [exact H0 | rewrite timeLeft_succ; apply tick_nonneg]. }
  rewrite timeLeft_succ. unfold tick, Math_max. lia.
Qed.

Lemma countdown_witness :
  timeLeft 2 3 = Z.max 0 (timeLeft 2 2 - 1)
  /\ 0 <= timeLeft 2 2
  /\ timeLeft 2 3 <= timeLeft 2 2.
Proof. apply (countdown_nonneg_nonincreasing 2 2). lia. Defined.

End PoolingFacts.

(** ** Rounding *)

Module RoundFacts.
Import JS.
Local Open Scope Q_scope.

(** [Math.round] moves its argument by at most one half, and rounds up on
    a tie. *)
Lemma Math_round_bounds (x : Q) :
  x - (1 # 2) < inject_Z (Math_round x) /\ inject_Z (Math_round x) <= x + (1 # 2).
Proof.
  unfold Math_round.
  pose proof (Qfloor_le (x + (1 # 2))) as Hle.
  pose proof (Qlt_floor (x + (1 # 2))) as Hlt.
  rewrite inject_Z_plus in Hlt. change (inject_Z 1) with 1 in Hlt.
  split; lra.
Qed.

Lemma Math_round_tie (n : Z) : Math_round (inject_Z n + (1 # 2)) = (n + 1)%Z.
Proof.
  unfold Math_round.
  assert (E : inject_Z n + (1 # 2) + (1 # 2) == inject_Z (n + 1)).
  { rewrite inject_Z_plus. change (inject_Z 1) with 1. lra. }
  rewrite E. apply Qfloor_Z.
Qed.

(** Amounts at least a dollar apart round to different dollars. *)
Lemma Math_round_lt (x y : Q) : x + 1 <= y -> (Math_round x < Math_round y)%Z.
Proof.
  intros H.
  destruct (Math_round_bounds x) as [_ Hx], (Math_round_bounds y) as [Hy _].
  rewrite Zlt_Qlt. lra.
Qed.

(** An amount between two whole numbers rounds between them. *)
Lemma Math_round_range (lo hi : Z) (x : Q) :
  inject_Z lo <= x -> x < inject_Z hi -> (lo <= Math_round x <= hi)%Z.
Proof.
  intros Hlo Hhi. destruct (Math_round_bounds x) as [Hx Hy].
  assert (H1 : (lo < Math_round x + 1)%Z).
  { rewrite Zlt_Qlt, inject_Z_plus. change (inject_Z 1) with 1. lra. }
  assert (H2 : (Math_round x < hi + 1)%Z).
  { rewrite Zlt_Qlt, inject_Z_plus. change (inject_Z 1) with 1. lra. }
  lia.
Qed.

#[export] Instance Math_round_proper : Proper (Qeq ==> eq) Math_round.
Proof. intros x y E. unfold Math_round. now rewrite E. Qed.

End RoundFacts.

(** ** The quotes of the calculator and of the review step *)

Module QuoteFacts.
Import JS RoundFacts.
Local Open Scope Q_scope.

Module QC := QuoteCalculator.
Module RS := ReviewStep.

(** The amounts of the calculator in terms of the base rate. *)
Lemma calculator_amounts (r1 r2 r3 : Q) :
  let a := QC.calculate r1 r2 r3 in
  QC.baseRate' a == 1800 + 800 * r1
  /\ QC.fuelSurcharge' a == 0.18 * QC.baseRate' a
  /\ QC.poolingDiscount' a == 0.22 * QC.baseRate' a
  /\ QC.total' a == 0.96 * QC.baseRate' a
  /\ QC.total' a == QC.individualPrice a - QC.poolingDiscount' a.
Proof. unfold QC.individualPrice; simpl. repeat split; lra. Qed.

Lemma review_amounts (r : Q) :
  let a := RS.calculate r in
  RS.baseRate' a == 850 + 400 * r
  /\ RS.fuelSurcharge' a == 0.18 * RS.baseRate' a
  /\ RS.poolingDiscount' a == 0.23 * RS.baseRate' a
  /\ RS.finalPrice' a == 0.95 * RS.baseRate' a
  /\ RS.finalPrice' a == RS.individualPrice a - RS.poolingDiscount' a.
Proof. unfold RS.individualPrice; simpl. repeat split; lra. Qed.





(** Each field is rounded on its own, so the stored fields need not add
    up: with the draw 17/1024 the total is 1741 while base rate plus
    surcharge minus discount is 1813 + 326 - 399 = 1740. *)
Example rounded_fields_do_not_add_up :
  let q := QC.handleCalculate (17 # 1024) 0 0 in
  QC.total q = 1741%Z
  /\ (QC.baseRate q + QC.fuelSurcharge q - QC.poolingDiscount q = 1740)%Z.
Proof. split; reflexivity. Qed.



End QuoteFacts.

(** ** Linear feet *)

Module ShipmentFormFacts.
Import ShipmentForm.

(** The check of the [linearFeet] key passes exactly on the finite numbers
    from 1 to 53. *)
Lemma linearFeet_ok_iff (x : number) :
  linearFeet_ok x = true <-> exists q, x = Finite q /\ (1 <= q /\ q <= 53)%Q.
Proof.
  unfold linearFeet_ok, z_number, z_min, z_max, lt, gt. split.
  - destruct x as [| | |q]; simpl; try discriminate.
    rewrite !negb_involutive, andb_true_iff, !Qle_bool_iff.
    intros [H1 H2]. exists q. auto.
  - intros (q & -> & H1 & H2). simpl.
    rewrite !negb_involutive, andb_true_iff, !Qle_bool_iff. auto.
Qed.

Lemma shipmentSchema_linearFeet (v : values) :
  shipmentSchema v = true -> linearFeet_ok (linearFeet v) = true.
Proof.
  unfold shipmentSchema. rewrite !andb_true_iff. tauto.
Qed.

Lemma snapping_slider_respects_bounds : respects_bounds snapping_slider.
Proof. intros min max step pos H. unfold snapping_slider. lia. Qed.

Section WithSlider.
Variable Slider : slider.
Hypothesis Slider_bounded : respects_bounds Slider.

Lemma Slider_1_53 (pos : Q) : (1 <= Slider 1 53 1 pos <= 53)%Z.
Proof. apply Slider_bounded. lia. Qed.

Lemma linearFeetAfter_inv (moves : list Q) :
  exists x, linearFeetAfter Slider moves = [x] /\ (1 <= x <= 53)%Z.
Proof.
  destruct moves as [|pos moves]; simpl.
  - exists 20%Z. split; [reflexivity | lia].
  - exists (Slider 1 53 1 pos). split; [reflexivity | apply Slider_1_53].
Qed.

Lemma fieldAfter_inv (moves : list Q) : (1 <= fieldAfter Slider moves <= 53)%Z.
Proof.
  destruct moves as [|pos moves]; simpl; [lia | apply Slider_1_53].
Qed.
End WithSlider.

(** C8. Validation of the form succeeds only if [linearFeet] is a number
    between 1 and 53 inclusive; and, for a slider that keeps its value
    between its [min] and [max], the linear-feet state of the quote
    calculator and the linear-feet key of the form, both set by a slider
    with [min = 1] and [max = 53], stay between 1 and 53 after any
    sequence of moves. *)
Theorem linear_feet_between_1_and_53 (Slider : slider) (v : values) (moves : list Q) :
  respects_bounds Slider ->
  (shipmentSchema v = true ->
   exists q, linearFeet v = Finite q /\ (1 <= q /\ q <= 53)%Q)
  /\ (exists x, linearFeetAfter Slider moves = [x] /\ (1 <= x <= 53)%Z)
  /\ (1 <= fieldAfter Slider moves <= 53)%Z.
Proof.
  intros HS. split; [|split].
  - intros Hv. apply linearFeet_ok_iff, shipmentSchema_linearFeet, Hv.
  - apply linearFeetAfter_inv, HS.
  - apply fieldAfter_inv, HS.
Qed.

Lemma linear_feet_witness :
  (exists q, linearFeet sample_values = Finite q /\ (1 <= q /\ q <= 53)%Q)
  /\ (1 <= fieldAfter snapping_slider [100; 0.2]%Q <= 53)%Z.
Proof.
  destruct (linear_feet_between_1_and_53 snapping_slider sample_values [100; 0.2]%Q
              snapping_slider_respects_bounds) as (Hv & _ & Hf).
  split; [apply Hv; reflexivity | exact Hf].
Defined.

(** A form whose linear feet are 54 is rejected, the other keys being
    valid; so is one with 0.5. *)
Example rejects_54 :
  linearFeet_ok (Finite 54) = false /\ linearFeet_ok (Finite 0.5) = false
  /\ linearFeet_ok PosInfinity = false /\ linearFeet_ok NaN = false
  /\ linearFeet_ok (Finite 1) = true /\ linearFeet_ok (Finite 53) = true.
Proof. repeat split. Qed.

End ShipmentFormFacts.

(** ** The API client *)

Module ApiFacts.
Import Api.
Local Open Scope string_scope.

Section Client.
Variable env_url : option string.
Variable fetch : string -> RequestInit -> option Response.
Variables (endpoint : string) (options : RequestInit) (response : Response).
Hypothesis Hsent : sent env_url fetch endpoint options = Some response.

Lemma fetchAPI_not_ok :
  ok response = false ->
  exists e, fetchAPI env_url fetch endpoint options = Thrown e
            /\ (e = TypeError \/ exists m, e = Error m).
Proof.
  intros Hok. unfold fetchAPI. unfold sent in Hsent. rewrite Hsent, Hok. simpl.
  destruct (get_error _) as [e|]; [|eauto].
  destruct (truthy e); eauto.
Qed.

Lemma fetchAPI_ok :
  ok response = true ->
  fetchAPI env_url fetch endpoint options
  = match json_body response with
    | Some v => Returned v
    | None => Thrown BodyError
    end.
Proof.
  intros Hok. unfold fetchAPI. unfold sent in Hsent. rewrite Hsent, Hok. reflexivity.
Qed.

(** The message of the error: the fallback text when the error body is
    not JSON, the [error] member of the body when it is truthy, and the
    status template when the body is an object without a truthy [error]. *)
Lemma fetchAPI_error_message :
  ok response = false ->
  match json_body response with
  | None =>
      fetchAPI env_url fetch endpoint options
      = Thrown (Error (TextOf (JStr "Unknown error")))
  | Some (JObj members) =>
      fetchAPI env_url fetch endpoint options
      = if truthy (last_member "error" members)
        then Thrown (Error (TextOf (default JNull (last_member "error" members))))
        else Thrown (Error (ApiErrorStatus (status response)))
  | Some JNull => fetchAPI env_url fetch endpoint options = Thrown TypeError
  | Some _ =>
      fetchAPI env_url fetch endpoint options
      = Thrown (Error (ApiErrorStatus (status response)))
  end.
Proof.
  intros Hok. unfold fetchAPI. unfold sent in Hsent. rewrite Hsent, Hok. simpl.
  destruct (json_body response) as [[]|]; reflexivity.
Qed.
End Client.




(** The client sends the merged headers to the address under [API_BASE]. *)
Example request_of_accept :
  let fetch := fun (url : string) (init : RequestInit) =>
    if (url =? "http://localhost:8000/api/v1/quotes/Q-1/accept")
       && match method init with Some m => m =? "POST" | None => false end
       && match headers init with
          | [(k, v)] => (k =? "Content-Type") && (v =? "application/json")
          | _ => false
          end
    then Some (mkResponse true 200 (Some (JObj [("quote_id", JStr "Q-1")])))
    else None in
  quotes_accept None fetch "Q-1" = Returned (JObj [("quote_id", JStr "Q-1")]).
Proof. reflexivity. Qed.

End ApiFacts.

(** ** Quote acceptance *)

Module QuoteIssuerFacts.
Import QuoteIssuer.

(** C5. Accepting a quote strictly before its [valid_until] succeeds;
    accepting it at or after [valid_until] fails with [Expired]. *)
Theorem accept_before_deadline_only (q : Quote) (now : Z) :
  (now < valid_until q -> accept now q = Confirmed (id q))
  /\ (valid_until q <= now -> accept now q = Failed Expired).
Proof.
  unfold accept. destruct (Z.ltb_spec now (valid_until q)); split; intros; try lia; reflexivity.
Qed.

Lemma accept_before_deadline_only_witness :
  let q := mkQuote "Q-1" "SHP-001" 2000 360 440 2360 78 1800000 "active" in
  accept 1799999 q = Confirmed "Q-1"
  /\ accept 1800000 q = Failed Expired
  /\ accept 1800001 q = Failed Expired.
Proof.
  intros q.
  split; [|split].
  - apply (proj1 (accept_before_deadline_only q 1799999)). simpl. lia.
  - apply (proj2 (accept_before_deadline_only q 1800000)). simpl. lia.
  - apply (proj2 (accept_before_deadline_only q 1800001)). simpl. lia.
Defined.

End QuoteIssuerFacts.

(** * Further properties of the components *)

(** ** More on rounding *)

Module RoundMore.
Import JS RoundFacts.
Local Open Scope Q_scope.

Lemma Math_round_mono (x y : Q) : x <= y -> (Math_round x <= Math_round y)%Z.
Proof. intros H. unfold Math_round. apply Qfloor_resp_le. lra. Qed.

Lemma Math_round_Z (n : Z) : Math_round (inject_Z n) = n.
Proof.
  destruct (Math_round_bounds (inject_Z n)) as [Hlo Hhi].
  assert (H1 : (n < Math_round (inject_Z n) + 1)%Z).
  { rewrite Zlt_Qlt, inject_Z_plus. change (inject_Z 1) with 1. lra. }
  assert (H2 : (Math_round (inject_Z n) < n + 1)%Z).
  { rewrite Zlt_Qlt, inject_Z_plus. change (inject_Z 1) with 1. lra. }
  lia.
Qed.

(** A number within one half below and strictly less than one half above a
    whole number rounds to it. *)
Lemma Math_round_eq (n : Z) (x : Q) :
  inject_Z n - (1 # 2) <= x -> x < inject_Z n + (1 # 2) -> Math_round x = n.
Proof.
  intros Hlo Hhi. destruct (Math_round_bounds x) as [Hx Hy].
  assert (H1 : (n < Math_round x + 1)%Z).
  { rewrite Zlt_Qlt, inject_Z_plus. change (inject_Z 1) with 1. lra. }
  assert (H2 : (Math_round x < n + 1)%Z).
  { rewrite Zlt_Qlt, inject_Z_plus. change (inject_Z 1) with 1. lra. }
  lia.
Qed.

End RoundMore.

(** ** The pooling card *)

Module PoolingCardFacts.
Import JS JSText Pooling PoolingCard.
Local Open Scope string_scope.

Lemma formatTime_below_hour (minutes : Z) :
  minutes < 60 -> formatTime minutes = Number_toString minutes ++ "m".
Proof.
  intros H. unfold formatTime. destruct (Z.ltb_spec minutes 60); [reflexivity | lia].
Qed.

Lemma formatTime_from_hour (minutes : Z) :
  60 <= minutes ->
  formatTime minutes
  = Number_toString (minutes / 60) ++ "h " ++ Number_toString (minutes mod 60) ++ "m".
Proof.
  intros H. unfold formatTime, floor_div, remainder.
  destruct (Z.ltb_spec minutes 60); [lia|].
  rewrite Z.rem_mod_nonneg by lia. reflexivity.
Qed.


Example formatTime_examples :
  formatTime 45 = "45m" /\ formatTime 60 = "1h 0m" /\ formatTime 180 = "3h 0m"
  /\ formatTime 125 = "2h 5m" /\ formatTime 0 = "0m".
Proof. repeat split. Qed.

(** X2. For an opportunity whose individual cost is positive and whose
    pooled cost lies between 0 and the individual cost, the value of the
    progress bar lies between 0 and 100, and it is the complement to 100 of
    the savings percentage before rounding. *)
Theorem progress_complements_savings (o : opportunity) :
  0 < individualCost o -> 0 <= pooledCost o <= individualCost o ->
  (0 <= progressValue o /\ progressValue o <= 100
   /\ progressValue o + savings_ratio o == 100)%Q.
Proof.
  intros Hpos [Hlo Hhi]. unfold progressValue, savings_ratio.
  set (i := individualCost o) in *. set (p := pooledCost o) in *.
  assert (Hi : (0 < inject_Z i)%Q) by (change 0%Q with (inject_Z 0); rewrite <- Zlt_Qlt; exact Hpos).
  assert (Hp : (0 <= inject_Z p)%Q) by (change 0%Q with (inject_Z 0); rewrite <- Zle_Qle; exact Hlo).
  assert (Hpi : (inject_Z p <= inject_Z i)%Q) by (rewrite <- Zle_Qle; exact Hhi).
  assert (Hq : (0 <= inject_Z p / inject_Z i /\ inject_Z p / inject_Z i <= 1)%Q).
  { split.
    - apply Qle_shift_div_l; [exact Hi | lra].
    - apply Qle_shift_div_r; [exact Hi | lra]. }
  split; [lra | split; [lra|]].
  unfold Z.sub. rewrite inject_Z_plus, inject_Z_opp. field. lra.
Qed.

Lemma progress_complements_savings_witness :
  (0 <= progressValue (mkOpp "POOL-006" 89 2 (Place.mk "Boston" "MA")
                         (Place.mk "Philadelphia" "PA") 480 18 2666 2186 180 "Reefer" [])
   /\ progressValue (mkOpp "POOL-006" 89 2 (Place.mk "Boston" "MA")
                       (Place.mk "Philadelphia" "PA") 480 18 2666 2186 180 "Reefer" [])
      <= 100)%Q.
Proof.
  destruct (progress_complements_savings
              (mkOpp "POOL-006" 89 2 (Place.mk "Boston" "MA")
                 (Place.mk "Philadelphia" "PA") 480 18 2666 2186 180 "Reefer" []))
    as (H1 & H2 & _); simpl; try lia.
  split; assumption.
Defined.

(** The execute button after any sequence of clicks and timeouts. *)
Lemma step_keeps_single_flight (s : state) (e : event) :
  pending s = (if isExecuting s then 1 else 0)%nat ->
  pending (step s e) = (if isExecuting (step s e) then 1 else 0)%nat.
Proof.
  destruct s as [[] n], e; simpl; intros ->; reflexivity.
Qed.

Lemma fold_step_single_flight (events : list event) (s : state) :
  pending s = (if isExecuting s then 1 else 0)%nat ->
  pending (fold_left step events s)
  = (if isExecuting (fold_left step events s) then 1 else 0)%nat.
Proof.
  revert s. induction events as [|e events IH]; intros s Hs; simpl; [exact Hs|].
  apply IH, step_keeps_single_flight, Hs.
Qed.

(** X3. Whatever the user clicks and whenever the timeouts fire, exactly one
    timeout is pending while the card shows "Processing..." and none
    otherwise: a second click while processing starts nothing, and a click
    right after the timeout fired starts a new run. *)
Theorem execute_button_single_flight (events : list event) :
  pending (run events) = (if isExecuting (run events) then 1 else 0)%nat
  /\ run (events ++ [Click; Click]) = run (events ++ [Click])
  /\ isExecuting (run (events ++ [Click; Timeout])) = false.
Proof.
  pose proof (fold_step_single_flight events initial eq_refl) as H.
  fold (run events) in H.
  split; [exact H|].
  unfold run in *. rewrite !fold_left_app. simpl.
  destruct (fold_left step events initial) as [[] n]; simpl in *; subst; auto.
Qed.

End PoolingCardFacts.

(** ** The count-up animations and the quote result *)

Module CountUpFacts.
Import JS RoundFacts RoundMore CountUp.

Section Animation.
Variables (steps N : Z).
Hypothesis steps_pos : 0 < steps.
Hypothesis N_nonneg : 0 <= N.

Let target : Q := inject_Z N.

Lemma fraction_bounds (k : Z) :
  0 <= k <= steps -> (0 <= inject_Z k / inject_Z steps /\ inject_Z k / inject_Z steps <= 1)%Q.
Proof.
  intros [Hk0 Hk1].
  assert (Hs : (0 < inject_Z steps)%Q)
    by (change 0%Q with (inject_Z 0); rewrite <- Zlt_Qlt; exact steps_pos).
  assert (H0 : (0 <= inject_Z k)%Q)
    by (change 0%Q with (inject_Z 0); rewrite <- Zle_Qle; exact Hk0).
  assert (H1 : (inject_Z k <= inject_Z steps)%Q) by (rewrite <- Zle_Qle; exact Hk1).
  split.
  - apply Qle_shift_div_l; [exact Hs | lra].
  - apply Qle_shift_div_r; [exact Hs | lra].
Qed.

Lemma target_nonneg : (0 <= target)%Q.
Proof.
  unfold target. change 0%Q with (inject_Z 0). rewrite <- Zle_Qle. exact N_nonneg.
Qed.

Lemma shown_bounds (k : Z) : 0 <= k <= steps -> 0 <= shown steps target k <= N.
Proof.
  intros Hk. destruct (fraction_bounds k Hk) as [H0 H1].
  pose proof target_nonneg as Ht. unfold shown.
  split.
  - rewrite <- (Math_round_Z 0). apply Math_round_mono.
    change (inject_Z 0) with 0%Q. apply Qmult_le_0_compat; assumption.
  - assert (H : Math_round (target * (inject_Z k / inject_Z steps)) <= Math_round target).
    { apply Math_round_mono. set (f := (inject_Z k / inject_Z steps)%Q) in *. nra. }
    unfold target in H at 2. rewrite Math_round_Z in H. exact H.
Qed.

Lemma shown_mono (k k' : Z) : k <= k' -> shown steps target k <= shown steps target k'.
Proof.
  intros Hk. unfold shown. apply Math_round_mono.
  assert (Hs : (0 < inject_Z steps)%Q)
    by (change 0%Q with (inject_Z 0); rewrite <- Zlt_Qlt; exact steps_pos).
  pose proof target_nonneg as Ht.
  assert (Hf : (inject_Z k / inject_Z steps <= inject_Z k' / inject_Z steps)%Q).
  { unfold Qdiv. apply Qmult_le_compat_r; [rewrite <- Zle_Qle; exact Hk|].
    apply Qlt_le_weak, Qinv_lt_0_compat, Hs. }
  set (f := (inject_Z k / inject_Z steps)%Q) in *.
  set (f' := (inject_Z k' / inject_Z steps)%Q) in *. nra.
Qed.

Lemma shown_final : shown steps target steps = N.
Proof.
  unfold shown.
  assert (Hs : (0 < inject_Z steps)%Q)
    by (change 0%Q with (inject_Z 0); rewrite <- Zlt_Qlt; exact steps_pos).
  assert (E : (target * (inject_Z steps / inject_Z steps) == inject_Z N)%Q).
  { unfold target. field. lra. }
  rewrite E. apply Math_round_Z.
Qed.

(** The timer after [n] firings. *)
Lemma after_state (display0 : Z) (n : nat) :
  let t := after steps target display0 n in
  step t = Z.min (Z.of_nat n) steps
  /\ running t = (Z.of_nat n <? steps)
  /\ (n <> 0%nat -> display t = shown steps target (Z.min (Z.of_nat n) steps)).
Proof.
  induction n as [|n IH].
  - cbv zeta. unfold after. cbn [Nat.iter]. unfold start. cbn [step running display].
    change (Z.of_nat 0) with 0. rewrite Z.min_l by lia.
    repeat split; [symmetry; apply Z.ltb_lt; lia | intros H; contradiction H; reflexivity].
  - cbv zeta in IH. destruct IH as (Hs & Hr & Hd).
    cbv zeta. unfold after in *. rewrite Nat.iter_succ.
    set (t := Nat.iter n (fire steps target) (start display0)) in *.
    unfold fire. rewrite Hr.
    destruct (Z.ltb_spec (Z.of_nat n) steps) as [Hlt|Hge].
    + cbn [step display running]. rewrite Hs.
      rewrite (Z.min_l (Z.of_nat n)) by lia.
      rewrite (Z.min_l (Z.of_nat (S n))) by lia.
      replace (Z.of_nat n + 1) with (Z.of_nat (S n)) by lia.
      repeat split.
      destruct (Z.leb_spec steps (Z.of_nat (S n))), (Z.ltb_spec (Z.of_nat (S n)) steps);
        simpl; auto; lia.
    + rewrite Hs.
      rewrite (Z.min_r (Z.of_nat n)) in * by lia.
      rewrite (Z.min_r (Z.of_nat (S n))) by lia.
      repeat split; [rewrite Hr; symmetry; apply Z.ltb_ge; lia|].
      intros _. apply Hd. destruct n; [simpl in Hge; lia | discriminate].
Qed.

End Animation.



End CountUpFacts.

Module QuoteResultFacts.
Import JS RoundFacts RoundMore.
Local Open Scope Q_scope.

Module QC := QuoteCalculator.
Module RS := ReviewStep.







End QuoteResultFacts.

(** ** The quote calculator as a state machine *)

Module CalculatorFacts.
Import JS CalculatorUI.

Lemma run_snoc (events : list event) (e : event) :
  run (events ++ [e]) = step (run events) e.
Proof. unfold run. rewrite fold_left_app. reflexivity. Qed.

Lemma clicked_when_valid_snoc (events : list event) (e : event) :
  clicked_when_valid events -> clicked_when_valid (events ++ [e]).
Proof.
  intros (before & after & -> & Hv). exists before, (after ++ [e]).
  split; [|exact Hv]. rewrite <- app_assoc. reflexivity.
Qed.

Lemma history (events : list event) :
  (pending (run events) <> 0%nat -> clicked_when_valid events)
  /\ (forall q, quote (run events) = Some q ->
        clicked_when_valid events
        /\ exists r1 r2 r3,
             In (Timeout r1 r2 r3) events /\ q = QuoteCalculator.handleCalculate r1 r2 r3).
Proof.
  induction events as [|e events [IHp IHq]] using rev_ind.
  - split; [intros H; contradiction H; reflexivity | intros q H; discriminate H].
  - rewrite run_snoc.
    assert (Same : pending (step (run events) e) = pending (run events) ->
                   quote (step (run events) e) = quote (run events) ->
                   (pending (step (run events) e) <> 0%nat -> clicked_when_valid (events ++ [e]))
                   /\ (forall q, quote (step (run events) e) = Some q ->
                         clicked_when_valid (events ++ [e])
                         /\ exists r1 r2 r3,
                              In (Timeout r1 r2 r3) (events ++ [e])
                              /\ q = QuoteCalculator.handleCalculate r1 r2 r3)).
    { intros -> ->. split.
      - intros H. apply clicked_when_valid_snoc, IHp, H.
      - intros q H. destruct (IHq q H) as (Hc & r1 & r2 & r3 & Hin & Hq).
        split; [apply clicked_when_valid_snoc, Hc|].
        exists r1, r2, r3. split; [apply in_or_app; left; exact Hin | exact Hq]. }
    destruct e as [v|v|v|v|v| |r1 r2 r3]; try (apply Same; reflexivity).
    + (* Click *)
      destruct (disabled (run events)) eqn:Hd;
        [apply Same; simpl; rewrite Hd; reflexivity|].
      assert (Hc : clicked_when_valid (events ++ [Click])).
      { exists events, []. split; [reflexivity|].
        unfold disabled in Hd. apply orb_false_elim in Hd as [Hd _].
        apply negb_false_iff, Hd. }
      split; [intros _; exact Hc|].
      simpl. rewrite Hd. simpl.
      intros q H. destruct (IHq q H) as (_ & r1 & r2 & r3 & Hin & Hq).
      split; [exact Hc|]. exists r1, r2, r3.
      split; [apply in_or_app; left; exact Hin | exact Hq].
    + (* Timeout *)
      destruct (pending (run events)) as [|n] eqn:Hp.
      * apply Same; simpl; rewrite Hp; simpl; [exact Hp | reflexivity].
      * assert (Hc : clicked_when_valid (events ++ [Timeout r1 r2 r3])).
        { apply clicked_when_valid_snoc, IHp. discriminate. }
        split; [intros _; exact Hc|].
        simpl. rewrite Hp. simpl. intros q [= <-]. split; [exact Hc|].
        exists r1, r2, r3. split; [apply in_or_app; right; left; reflexivity | reflexivity].
Qed.

(** X8. A quote is on screen only if, earlier, the button was clicked while
    the form was valid (both ZIP codes of at least five characters and a
    non-empty weight), and the quote is the one computed by
    [handleCalculate] when one of the timeouts fired. *)
Theorem quote_only_after_valid_click (events : list event) (q : QuoteCalculator.quote) :
  quote (run events) = Some q ->
  (exists before after,
      events = before ++ Click :: after
      /\ Nat.le 5 (String.length (originZip (run before)))
      /\ Nat.le 5 (String.length (destZip (run before)))
      /\ weight (run before) <> ""%string)
  /\ exists r1 r2 r3,
       In (Timeout r1 r2 r3) events /\ q = QuoteCalculator.handleCalculate r1 r2 r3.
Proof.
  intros H. destruct (history events) as [_ Hq].
  destruct (Hq q H) as ((before & after & -> & Hv) & Ht).
  split; [|exact Ht].
  exists before, after. split; [reflexivity|].
  unfold isFormValid in Hv. rewrite !andb_true_iff in Hv. destruct Hv as [[H1 H2] H3].
  apply Nat.leb_le in H1, H2.
  repeat split; try assumption.
  intros E. rewrite E in H3. discriminate H3.
Qed.

Lemma quote_only_after_valid_click_witness :
  exists r1 r2 r3,
    In (Timeout r1 r2 r3)
      [SetOriginZip "90210"; SetDestZip "75201"; SetWeight "10000"; Click; Timeout 0 0 0]
    /\ QuoteCalculator.handleCalculate 0 0 0 = QuoteCalculator.handleCalculate r1 r2 r3.
Proof.
  apply (quote_only_after_valid_click
           [SetOriginZip "90210"; SetDestZip "75201"; SetWeight "10000"; Click; Timeout 0 0 0]
           (QuoteCalculator.handleCalculate 0 0 0)).
  reflexivity.
Defined.

Lemma step_single_flight (s : state) (e : event) :
  pending s = (if isCalculating s then 1 else 0)%nat ->
  pending (step s e) = (if isCalculating (step s e) then 1 else 0)%nat.
Proof.
  intros H. destruct e; simpl; try exact H.
  - destruct (disabled s) eqn:Hd; [exact H|]. simpl.
    unfold disabled in Hd. apply orb_false_elim in Hd as [_ Hc].
    rewrite Hc in H. rewrite H. reflexivity.
  - destruct (pending s) as [|n] eqn:Hp; [rewrite Hp; exact H|]. simpl.
    destruct (isCalculating s); congruence.
Qed.


End CalculatorFacts.

(** ** The shipment wizard *)

Module WizardFacts.
Import ShipmentForm Wizard.

Section Machine.
Variable destination_trigger : values -> bool.

Lemma step_good (s : state) (e : event) : good s -> good (step destination_trigger s e).
Proof.
  destruct s as [c v]. unfold good, step, nextStep, prevStep. simpl.
  intros (Hc & Ho & Hf).
  assert (Hcase : c = 1 \/ c = 2 \/ c = 3 \/ c = 4) by lia.
  destruct Hcase as [->|[->|[->| ->]]]; destruct e as [e| |]; simpl;
    repeat match goal with
           | |- context [if ?b then _ else _] => destruct b eqn:?
           end; simpl;
    repeat split; try lia; intros; try lia; auto;
    try (apply Ho; lia); try (apply Hf; lia).
Qed.

Lemma run_good (v0 : values) (events : list event) : good (run destination_trigger v0 events).
Proof.
  unfold run.
  assert (H0 : good (mkState 1 v0)) by (unfold good; simpl; repeat split; intros; lia).
  revert H0. generalize (mkState 1 v0).
  induction events as [|e events IH]; intros s Hs; simpl; [exact Hs|].
  apply IH, step_good, Hs.
Qed.
End Machine.

(** X10. In the shipment wizard, whatever the user edits and clicks, the
    current step stays between 1 and 4; past the first step the origin keys
    pass their checks; and the review step is on screen only with freight
    keys that pass theirs, in particular with linear feet between 1 and 53.
    (The destination step is not among the sources: it is taken to edit
    only the destination keys, whatever its own gate.) *)
Theorem wizard_gates_hold (destination_trigger : values -> bool) (v0 : values)
    (events : list event) :
  let s := run destination_trigger v0 events in
  1 <= currentStep s <= 4
  /\ (2 <= currentStep s -> origin_trigger (formValues s) = true)
  /\ (currentStep s = 4 ->
      freight_trigger (formValues s) = true
      /\ exists q, linearFeet (formValues s) = Finite q /\ (1 <= q /\ q <= 53)%Q).
Proof.
  intros s. destruct (run_good destination_trigger v0 events) as (Hc & Ho & Hf).
  fold s in Hc, Ho, Hf.
  split; [exact Hc | split; [exact Ho|]].
  intros H4. specialize (Hf H4). split; [exact Hf|].
  apply ShipmentFormFacts.linearFeet_ok_iff.
  unfold freight_trigger in Hf. rewrite !andb_true_iff in Hf. tauto.
Qed.

(** X11. At every moment of the wizard the step indicator shows exactly one
    current step, check marks on all the steps before it and muted circles
    on all the steps after it. *)
Theorem indicator_marks_one_current_step (destination_trigger : values -> bool)
    (v0 : values) (events : list event) :
  let c := currentStep (run destination_trigger v0 events) in
  StepIndicator steps c
  = replicate (Z.to_nat (c - 1)) Completed ++ [Current]
    ++ replicate (Z.to_nat (4 - c)) Upcoming.
Proof.
  intros c. destruct (run_good destination_trigger v0 events) as (Hc & _).
  fold c in Hc.
  assert (Hcase : c = 1 \/ c = 2 \/ c = 3 \/ c = 4) by lia.
  destruct Hcase as [->|[->|[->| ->]]]; reflexivity.
Qed.

(** X12. The numeric inputs of the freight step never put NaN into the
    form: what [parseFloat] could not read, and zero, become 0. The value
    passes the check of the weight, length, width and height keys exactly
    when [parseFloat] returned a number of at least 1. *)
Theorem numeric_input_never_NaN (parsed : number) :
  or_zero parsed <> NaN
  /\ z_number (or_zero parsed) = true
  /\ (z_number (or_zero parsed) && z_min 1 (or_zero parsed) = true
      <-> parsed = PosInfinity \/ exists q, parsed = Finite q /\ (1 <= q)%Q).
Proof.
  destruct parsed as [| | |q]; simpl.
  - repeat split; try discriminate.
    + intros [H|(q & H & _)]; discriminate H.
  - repeat split; try discriminate. intros _. left. reflexivity.
  - repeat split; try discriminate.
    intros [H|(q & H & _)]; discriminate H.
  - destruct (Qeq_bool q 0) eqn:Hq; simpl.
    + apply Qeq_bool_iff in Hq. repeat split; try discriminate.
      intros [H|(q' & [= <-] & Hge)]; [discriminate H|]. exfalso. lra.
    + unfold z_min, lt. rewrite negb_involutive, Qle_bool_iff.
      repeat split; try discriminate.
      * intros H. right. exists q. split; [reflexivity | exact H].
      * intros [H|(q' & [= <-] & Hge)]; [discriminate H | exact Hge].
Qed.

End WizardFacts.

(** ** Requests of the API client *)

Module ApiRequestFacts.
Import JS JSText Api ApiRequests.
Local Open Scope string_scope.

Lemma header_app (name : string) (a b : list (string * string)) :
  header name (a ++ b)
  = match header name b with Some v => Some v | None => header name a end.
Proof.
  induction a as [|[k v] a IH]; simpl.
  - destruct (header name b); reflexivity.
  - rewrite IH. destruct (header name b); reflexivity.
Qed.

(** X13. Every request of [fetchAPI] goes to the endpoint under [API_BASE],
    which is never empty, with the method and body of the caller; it
    carries every header the caller set, and a [Content-Type] that is the
    caller's if the caller set one and [application/json] otherwise. *)
Theorem request_keeps_caller_headers (env_url : option string) (endpoint : string)
    (options : RequestInit) :
  let (url, init) := request env_url endpoint options in
  url = API_BASE env_url ++ endpoint
  /\ API_BASE env_url <> ""
  /\ method init = method options /\ body init = body options
  /\ header "Content-Type" (headers init)
     = Some (default "application/json" (header "Content-Type" (headers options)))
  /\ forall name v,
       header name (headers options) = Some v -> header name (headers init) = Some v.
Proof.
  unfold request. cbn [method body headers]. repeat split.
  - destruct env_url as [[|c u]|]; simpl; discriminate.
  - rewrite header_app. destruct (header "Content-Type" (headers options)); reflexivity.
  - intros name v H. rewrite header_app, H. reflexivity.
Qed.

Example auth_me_request :
  let (url, init) := request None "/auth/me" (auth_me_options "abc") in
  url = "http://localhost:8000/api/v1/auth/me"
  /\ header "Authorization" (headers init) = Some "Bearer abc"
  /\ header "Content-Type" (headers init) = Some "application/json".
Proof. repeat split. Qed.

Lemma append_empty (a b : string) : a ++ b = "" -> a = "" /\ b = "".
Proof. destruct a; simpl; [auto | discriminate]. Qed.

Lemma toString_empty (params : list (string * string)) :
  URLSearchParams_toString params = "" <-> params = [].
Proof.
  split; [|intros ->; reflexivity].
  destruct params as [|[k v] rest]; [reflexivity|].
  simpl. intros H. exfalso.
  destruct rest as [|p rest].
  - apply append_empty in H as [_ H]. discriminate H.
  - apply append_empty in H as [_ H]. discriminate H.
Qed.

Lemma truthy_string_false (s : string) : truthy_string s = false <-> s = "".
Proof. destruct s; simpl; split; congruence. Qed.

Lemma app_nil_iff {A} (a b : list A) : (a ++ b)%list = [] <-> a = [] /\ b = [].
Proof. destruct a; simpl; split; [auto | intros [_ H]; exact H | discriminate | intros [H _]; discriminate H]. Qed.

Lemma singleton_or_nil {A} (t : bool) (x : A) : (if t then [x] else []) = [] <-> t = false.
Proof. destruct t; split; congruence. Qed.

Lemma truthy_text_false (v : option string) :
  truthy_text v = false <-> v = None \/ v = Some "".
Proof.
  destruct v as [[|c s]|]; simpl; split; auto; try discriminate.
  intros [H|H]; discriminate H.
Qed.

Lemma truthy_count_false (v : option Z) :
  truthy_count v = false <-> v = None \/ v = Some 0%Z.
Proof.
  destruct v as [n|]; simpl; [|split; auto].
  rewrite negb_false_iff, Z.eqb_eq. split.
  - intros ->. right. reflexivity.
  - intros [H|[= H]]; [discriminate H | exact H].
Qed.


Example list_endpoints :
  shipments_list_endpoint (Some (mkListParams (Some "in transit") (Some 20%Z) (Some 0%Z)))
  = "/shipments?status=in+transit&limit=20"
  /\ shipments_list_endpoint (Some (mkListParams (Some "a&b=c") None (Some 40%Z)))
     = "/shipments?status=a%26b%3Dc&offset=40"
  /\ shipments_list_endpoint (Some (mkListParams None (Some 0%Z) (Some 0%Z))) = "/shipments".
Proof. repeat split. Qed.

End ApiRequestFacts.

(** ** The authentication provider *)

Module AuthFacts.
Import JS Api Auth.
Local Open Scope string_scope.

Lemma keys_differ : TOKEN_KEY <> USER_KEY.
Proof. discriminate. Qed.

Lemma truthy_item_Some (v : option string) :
  truthy_item v = true <-> exists s, v = Some s /\ s <> "".
Proof.
  destruct v as [[|c w]|]; simpl.
  - split; [discriminate|]. intros (s & [= <-] & H). contradiction H. reflexivity.
  - split; [|reflexivity]. intros _. eexists. split; [reflexivity | discriminate].
  - split; [discriminate|]. intros (s & H & _). discriminate H.
Qed.

Section Provider.
Variable JSON_stringify : User -> string.

Lemma mount_consistent (storage : gmap string string) (me : string -> outcome User) :
  consistent JSON_stringify (loadAuthState JSON_stringify me (mounted storage)).
Proof.
  unfold Auth.loadAuthState, mounted. cbn [localStorage user token].
  destruct (truthy_item (storage !! TOKEN_KEY) && truthy_item (storage !! USER_KEY)) eqn:Hb.
  - apply andb_true_iff in Hb as [Ht _].
    apply truthy_item_Some in Ht as (t & Ht & _). rewrite Ht. simpl.
    destruct (me t) as [u|e]; unfold Auth.consistent; simpl.
    + repeat split; try discriminate.
      * intros t' [= <-]. rewrite lookup_insert_ne by (symmetry; apply keys_differ).
        exact Ht.
      * intros u' [= <-]. apply lookup_insert_eq.
    + repeat split; auto; discriminate.
  - unfold Auth.consistent; simpl. repeat split; auto; discriminate.
Qed.

Lemma perform_consistent (s : state) (c : call) :
  consistent JSON_stringify s -> consistent JSON_stringify (perform JSON_stringify s c).
Proof.
  intros (Hl & Hut & Ht & Hu). destruct c as [r|r|r|r]; simpl.
  - destruct r as [r|e]; unfold Auth.consistent; simpl.
    + repeat split; try discriminate.
      * intros t [= <-]. rewrite lookup_insert_ne by (symmetry; apply keys_differ).
        apply lookup_insert_eq.
      * intros u [= <-]. apply lookup_insert_eq.
    + repeat split; auto; apply Hut.
  - unfold register. destruct r as [r|e]; unfold Auth.consistent; simpl.
    + repeat split; try discriminate.
      * intros t [= <-]. rewrite lookup_insert_ne by (symmetry; apply keys_differ).
        apply lookup_insert_eq.
      * intros u [= <-]. apply lookup_insert_eq.
    + repeat split; auto; apply Hut.
  - unfold Auth.consistent; simpl. repeat split; auto; discriminate.
  - unfold updateProfile.
    destruct (truthy_item (token s)) eqn:Htk; simpl;
      [|unfold Auth.consistent; repeat split; auto; apply Hut].
    apply truthy_item_Some in Htk as (t & Htk & _). rewrite Htk. simpl.
    destruct (r t) as [u|e]; simpl;
      [|unfold Auth.consistent; repeat split; auto; apply Hut].
    unfold Auth.consistent; simpl. repeat split; try congruence.
    + intros t' Ht'. rewrite lookup_insert_ne by (symmetry; apply keys_differ).
      apply Ht. congruence.
    + intros u' [= <-]. apply lookup_insert_eq.
Qed.

End Provider.

(** X15. After the mount effect and any sequence of logins, registrations,
    logouts and profile updates, each completed before the next and
    whatever the server answered, the provider is not loading, the user and
    the token are both set or both unset, and the token and the serialized
    user in the state are the ones in [localStorage]. *)
Theorem session_state_matches_storage (JSON_stringify : User -> string)
    (storage : gmap string string) (me : string -> outcome User) (calls : list call) :
  consistent JSON_stringify (session JSON_stringify storage me calls).
Proof.
  unfold session.
  pose proof (mount_consistent JSON_stringify storage me) as H0.
  revert H0. generalize (loadAuthState JSON_stringify me (mounted storage)).
  induction calls as [|c calls IH]; intros s Hs; simpl; [exact Hs|].
  apply IH, perform_consistent, Hs.
Qed.

(** X16. After a logout, whether or not the request to the server went
    through, a reload of the page does not authenticate: the two keys are
    gone from the storage, so the mount effect does not even consult the
    server, and a protected page redirects to the sign-in page. *)
Theorem logout_survives_reload (JSON_stringify : User -> string) (s : state)
    (response : string -> outcome json) (me : string -> outcome User) :
  let s' := fst (logout response s) in
  snd (logout response s) = Returned tt
  /\ localStorage s' !! TOKEN_KEY = None /\ localStorage s' !! USER_KEY = None
  /\ (forall k, k <> TOKEN_KEY -> k <> USER_KEY -> localStorage s' !! k = localStorage s !! k)
  /\ withAuth s' <> ProtectedComponent
  /\ withAuth (loadAuthState JSON_stringify me (mounted (localStorage s')))
     = RedirectToSignIn.
Proof.
  simpl.
  assert (Ht : delete USER_KEY (delete TOKEN_KEY (localStorage s)) !! TOKEN_KEY = None).
  { rewrite lookup_delete_ne by (symmetry; apply keys_differ). apply lookup_delete_eq. }
  assert (Hu : delete USER_KEY (delete TOKEN_KEY (localStorage s)) !! USER_KEY = None).
  { apply lookup_delete_eq. }
  repeat split; auto.
  - intros k Hk1 Hk2. rewrite !lookup_delete_ne by congruence. reflexivity.
  - unfold withAuth. simpl. destruct (isLoading s); discriminate.
  - unfold loadAuthState, mounted. cbn [localStorage user token].
    rewrite Ht. reflexivity.
Qed.

(** X17. Once the mount effect has run, a protected page shows its component
    exactly when the storage held a non-empty token and a non-empty user and
    the server accepted that token; in every other case it redirects to the
    sign-in page, and the spinner is gone. *)
Theorem mount_decides_protected_route (JSON_stringify : User -> string)
    (storage : gmap string string) (me : string -> outcome User) :
  let s := loadAuthState JSON_stringify me (mounted storage) in
  (withAuth s = ProtectedComponent
   <-> exists t su u,
         storage !! TOKEN_KEY = Some t /\ t <> ""
         /\ storage !! USER_KEY = Some su /\ su <> ""
         /\ me t = Returned u)
  /\ (withAuth s = ProtectedComponent \/ withAuth s = RedirectToSignIn).
Proof.
  unfold loadAuthState, mounted. cbn [localStorage user token].
  destruct (truthy_item (storage !! TOKEN_KEY)) eqn:Ht; simpl.
  - destruct (truthy_item (storage !! USER_KEY)) eqn:Hu; simpl.
    + apply truthy_item_Some in Ht as (t & Ht & Hne).
      apply truthy_item_Some in Hu as (su & Hu & Hne').
      rewrite Ht. simpl. destruct (me t) as [u|e] eqn:Hme; unfold withAuth, isAuthenticated; simpl.
      * destruct t as [|c t]; [contradiction Hne; reflexivity|]. simpl.
        split; [|left; reflexivity].
        split; [intros _|reflexivity].
        exists (String c t), su, u. rewrite Hu. repeat split; auto.
      * split; [|right; reflexivity].
        split; [discriminate|].
        intros (t' & su' & u' & [= <-] & _ & _ & _ & Hme'). congruence.
    + unfold withAuth, isAuthenticated; simpl.
      split; [|right; reflexivity]. split; [discriminate|].
      intros (t' & su' & u' & _ & _ & Hu' & Hne' & _).
      assert (truthy_item (storage !! USER_KEY) = true)
        by (apply truthy_item_Some; eauto).
      congruence.
  - unfold withAuth, isAuthenticated; simpl.
    split; [|right; reflexivity]. split; [discriminate|].
    intros (t' & su' & u' & Ht' & Hne' & _).
    assert (truthy_item (storage !! TOKEN_KEY) = true)
      by (apply truthy_item_Some; eauto).
    congruence.
Qed.

(** X18. A successful login survives a reload: if the server sent a
    non-empty access token and the serialized user is not empty, the mount
    effect of the reloaded page asks the server about exactly that token;
    if the server accepts it the page is authenticated with that token and
    the user the server returned, and if the server refuses it both keys
    are removed and protected pages redirect. *)
Theorem login_survives_reload (JSON_stringify : User -> string) (r : AuthToken)
    (s : state) (me : string -> outcome User) :
  access_token r <> "" -> JSON_stringify (user_of r) <> "" ->
  let stored := localStorage (fst (login JSON_stringify (Returned r) s)) in
  let s' := loadAuthState JSON_stringify me (mounted stored) in
  stored !! TOKEN_KEY = Some (access_token r)
  /\ (forall u, me (access_token r) = Returned u ->
        user s' = Some u /\ token s' = Some (access_token r)
        /\ localStorage s' !! USER_KEY = Some (JSON_stringify u)
        /\ withAuth s' = ProtectedComponent)
  /\ (forall e, me (access_token r) = Thrown e ->
        localStorage s' !! TOKEN_KEY = None /\ localStorage s' !! USER_KEY = None
        /\ withAuth s' = RedirectToSignIn).
Proof.
  intros Ht Hu. simpl.
  set (stored := <[USER_KEY := JSON_stringify (user_of r)]>
                   (<[TOKEN_KEY := access_token r]> (localStorage s))).
  assert (Et : stored !! TOKEN_KEY = Some (access_token r)).
  { unfold stored. rewrite lookup_insert_ne by (symmetry; apply keys_differ).
    apply lookup_insert_eq. }
  assert (Eu : stored !! USER_KEY = Some (JSON_stringify (user_of r))).
  { unfold stored. apply lookup_insert_eq. }
  assert (Hb : truthy_item (stored !! TOKEN_KEY) && truthy_item (stored !! USER_KEY) = true).
  { apply andb_true_iff. split; apply truthy_item_Some; eauto. }
  split; [exact Et|].
  unfold loadAuthState, mounted. cbn [localStorage user token].
  rewrite Hb, Et. simpl.
  split.
  - intros u ->. unfold withAuth, isAuthenticated. simpl.
    repeat split; [apply lookup_insert_eq|].
    destruct (access_token r); [contradiction Ht|]; reflexivity.
  - intros e ->. simpl. repeat split.
    + rewrite lookup_delete_ne by (symmetry; apply keys_differ). apply lookup_delete_eq.
    + apply lookup_delete_eq.
Qed.

Lemma login_survives_reload_witness :
  let r := mkAuthToken "tok-1" "bearer" 3600 sample_user in
  let me := fun t : string => if (t =? "tok-1") then Returned sample_user
                              else Thrown (Error (ApiErrorStatus 401)) in
  let stored := localStorage (fst (login sample_stringify (Returned r) (mounted ∅))) in
  withAuth (loadAuthState sample_stringify me (mounted stored)) = ProtectedComponent.
Proof.
  intros r me stored.
  assert (H1 : access_token r <> "") by discriminate.
  assert (H2 : sample_stringify (user_of r) <> "") by discriminate.
  destruct (login_survives_reload sample_stringify r (mounted ∅) me H1 H2) as (_ & H & _).
  destruct (H sample_user eq_refl) as (_ & _ & _ & Hw). exact Hw.
Defined.

End AuthFacts.

(** ** More on the dashboard filter *)

Module FilterFacts.
Import JS Pooling.
Local Open Scope string_scope.

Lemma filter_sublist_of_weaker {A} (f g : A -> bool) (l : list A) :
  (forall x, f x = true -> g x = true) ->
  List.filter f l `sublist_of` List.filter g l.
Proof.
  intros Hfg. induction l as [|x l IH]; simpl; [constructor|].
  destruct (f x) eqn:Hf.
  - rewrite (Hfg x Hf). apply sublist_skip, IH.
  - destruct (g x); [apply sublist_cons|]; exact IH.
Qed.

Lemma filter_all_true {A} (f : A -> bool) (l : list A) :
  (forall x, f x = true) -> List.filter f l = l.
Proof.
  intros Hf. induction l as [|x l IH]; simpl; [reflexivity|].
  rewrite Hf, IH. reflexivity.
Qed.

Lemma prefix_refl (s : string) : String.prefix s s = true.
Proof.
  induction s as [|c s IH]; simpl; [reflexivity|].
  destruct (Ascii.ascii_dec c c) as [_|H]; [exact IH | contradiction H; reflexivity].
Qed.

Lemma includes_refl (s : string) : includes s s = true.
Proof. destruct s; [reflexivity|]. cbn [includes]. rewrite prefix_refl. reflexivity. Qed.

Lemma ascii_toLowerCase_empty (s : string) :
  truthy_string (ascii_toLowerCase s) = truthy_string s.
Proof. destruct s; reflexivity. Qed.

Section Filter.
Variable toLowerCase : string -> string.

Lemma keeps_default (opp : opportunity) : keeps toLowerCase "" "all" "all" "all" opp = true.
Proof. reflexivity. Qed.

Lemma keeps_weaker (searchQuery originState destState equipment_ : string)
    (opp : opportunity) :
  keeps toLowerCase searchQuery originState destState equipment_ opp = true ->
  keeps toLowerCase searchQuery "all" "all" "all" opp = true.
Proof.
  unfold keeps. simpl.
  destruct (negb (originState =? "all") && negb (Place.state (origin opp) =? originState));
    [discriminate|].
  destruct (negb (destState =? "all") && negb (Place.state (destination opp) =? destState));
    [discriminate|].
  destruct (negb (equipment_ =? "all") && negb (equipment opp =? equipment_));
    [discriminate|].
  auto.
Qed.
End Filter.

(** X19. With an empty search box and the three selections on "all" the
    dashboard lists every opportunity, in order; and choosing an origin
    state, a destination state or an equipment can only remove entries
    from what the same search shows with the selections on "all". *)
Theorem selections_only_narrow (toLowerCase : string -> string)
    (opps : list opportunity) (searchQuery originState destState equipment_ : string) :
  filterOpportunities toLowerCase opps "" "all" "all" "all" = opps
  /\ filterOpportunities toLowerCase opps searchQuery originState destState equipment_
     `sublist_of` filterOpportunities toLowerCase opps searchQuery "all" "all" "all".
Proof.
  split.
  - apply filter_all_true, keeps_default.
  - apply filter_sublist_of_weaker. intros opp. apply keeps_weaker.
Qed.

(** X20. Searching for an opportunity by its own identifier, or by the name
    of its origin or destination city, typed exactly, finds it: with the
    selections on "all" it is in the result whenever it is in the list. *)
Theorem search_finds_own_fields (toLowerCase : string -> string)
    (opps : list opportunity) (opp : opportunity) (searchQuery : string) :
  In opp opps -> searchQuery <> "" ->
  searchQuery = id opp \/ searchQuery = Place.city (origin opp)
  \/ searchQuery = Place.city (destination opp) ->
  In opp (filterOpportunities toLowerCase opps searchQuery "all" "all" "all").
Proof.
  intros Hin Hne Hq. apply filter_In. split; [exact Hin|].
  unfold keeps. simpl.
  destruct searchQuery as [|c q]; [contradiction Hne; reflexivity|].
  cbn [truthy_string].
  destruct Hq as [<-|[<-|<-]]; rewrite includes_refl, ?orb_true_r; reflexivity.
Qed.

Lemma search_finds_own_fields_witness :
  In (mkOpp "POOL-006" 89 2 (Place.mk "Boston" "MA") (Place.mk "Philadelphia" "PA")
        480 18 2666 2186 180 "Reefer" [])
    (filterOpportunities ascii_toLowerCase
       [mkOpp "POOL-006" 89 2 (Place.mk "Boston" "MA") (Place.mk "Philadelphia" "PA")
          480 18 2666 2186 180 "Reefer" []]
       "Boston" "all" "all" "all").
Proof.
  apply (search_finds_own_fields ascii_toLowerCase).
  - left. reflexivity.
  - discriminate.
  - right. left. reflexivity.
Defined.



End FilterFacts.

(** ** The time display is unambiguous *)

Module FormatTimeFacts.
Import JS JSText Pooling PoolingCard.
Local Open Scope string_scope.

Lemma to_int_not_nil (n : Z) : Z.to_int n <> Decimal.Pos Decimal.Nil /\ Z.to_int n <> Decimal.Neg Decimal.Nil.
Proof.
  split; intros H; pose proof (f_equal Z.of_int H) as E; rewrite DecimalZ.of_to in E;
    simpl in E; subst n; discriminate H.
Qed.

Lemma Number_toString_inj (a b : Z) : Number_toString a = Number_toString b -> a = b.
Proof.
  unfold Number_toString. intros H.
  apply (f_equal NilZero.int_of_string) in H.
  destruct (to_int_not_nil a) as [Ha1 Ha2], (to_int_not_nil b) as [Hb1 Hb2].
  rewrite !NilZero.isi in H by assumption.
  injection H as H. apply (f_equal Z.of_int) in H.
  rewrite !DecimalZ.of_to in H. exact H.
Qed.

Lemma digits_have_no_h (d : Decimal.uint) : occurs "h" (NilEmpty.string_of_uint d) = false.
Proof. induction d; simpl; auto. Qed.

Lemma Number_toString_no_h (n : Z) : occurs "h" (Number_toString n) = false.
Proof.
  unfold Number_toString, NilZero.string_of_int, NilZero.string_of_uint.
  destruct (Z.to_int n) as [d|d]; destruct d; simpl; auto using digits_have_no_h.
Qed.

Lemma occurs_app (c : ascii) (x y : string) : occurs c (x ++ y) = occurs c x || occurs c y.
Proof. induction x as [|a x IH]; simpl; [reflexivity|]. rewrite IH, orb_assoc. reflexivity. Qed.

Lemma length_append (x y : string) :
  String.length (x ++ y) = (String.length x + String.length y)%nat.
Proof. induction x as [|a x IH]; simpl; [reflexivity|]. rewrite IH. reflexivity. Qed.

Lemma append_inj_r (x y z : string) : x ++ z = y ++ z -> x = y.
Proof.
  intros H.
  assert (L : String.length x = String.length y).
  { apply (f_equal String.length) in H. rewrite !length_append in H. lia. }
  revert y H L. induction x as [|a x IH]; intros [|b y] H L; simpl in *; try discriminate.
  - reflexivity.
  - injection H as -> H. f_equal. apply IH; [exact H | lia].
Qed.

Lemma split_at_h (x x' r r' : string) :
  occurs "h" x = false -> occurs "h" x' = false ->
  x ++ String "h" r = x' ++ String "h" r' -> x = x' /\ r = r'.
Proof.
  revert x'. induction x as [|a x IH]; intros [|b x'] Hx Hx' H; simpl in *.
  - injection H as ->. auto.
  - injection H as <- _. simpl in Hx'. discriminate Hx'.
  - injection H as -> _. simpl in Hx. discriminate Hx.
  - injection H as -> H. apply orb_false_elim in Hx as [_ Hx], Hx' as [_ Hx'].
    destruct (IH x' Hx Hx' H) as [-> ->]. auto.
Qed.

(** X22. The time display is unambiguous: two different numbers of minutes
    are never shown with the same text. *)
Theorem formatTime_distinguishes (a b : Z) : a <> b -> formatTime a <> formatTime b.
Proof.
  intros Hne H. apply Hne. clear Hne.
  pose proof (Z.mod_pos_bound a 60 ltac:(lia)) as Ma.
  pose proof (Z.mod_pos_bound b 60 ltac:(lia)) as Mb.
  pose proof (Z.div_mod a 60 ltac:(lia)) as Da.
  pose proof (Z.div_mod b 60 ltac:(lia)) as Db.
  destruct (Z.lt_ge_cases a 60) as [Ha|Ha], (Z.lt_ge_cases b 60) as [Hb|Hb].
  - rewrite !PoolingCardFacts.formatTime_below_hour in H by assumption.
    apply append_inj_r in H. apply Number_toString_inj, H.
  - exfalso.
    rewrite PoolingCardFacts.formatTime_below_hour in H by assumption.
    rewrite PoolingCardFacts.formatTime_from_hour in H by assumption.
    apply (f_equal (occurs "h")) in H.
    rewrite !occurs_app, !Number_toString_no_h in H. simpl in H. discriminate H.
  - exfalso.
    rewrite (PoolingCardFacts.formatTime_below_hour b) in H by assumption.
    rewrite PoolingCardFacts.formatTime_from_hour in H by assumption.
    apply (f_equal (occurs "h")) in H.
    rewrite !occurs_app, !Number_toString_no_h in H. simpl in H. discriminate H.
  - rewrite !PoolingCardFacts.formatTime_from_hour in H by assumption.
    change (Number_toString (a / 60)
              ++ String "h" (" " ++ Number_toString (a mod 60) ++ "m")
            = Number_toString (b / 60)
                ++ String "h" (" " ++ Number_toString (b mod 60) ++ "m")) in H.
    apply split_at_h in H as [H1 H2]; try apply Number_toString_no_h.
    apply Number_toString_inj in H1. injection H2 as H2.
    change (Number_toString (a mod 60) ++ "m" = Number_toString (b mod 60) ++ "m") in H2.
    apply append_inj_r, Number_toString_inj in H2. lia.
Qed.

Lemma formatTime_distinguishes_witness : formatTime 45 <> formatTime 125.
Proof. apply (formatTime_distinguishes 45 125). lia. Defined.

(** X23. The countdown of a card ends on "0m": from a non-negative number
    of minutes, once at least that many ticks have passed the card shows
    "0m", and it keeps showing it. *)
Theorem countdown_ends_at_0m (timeRemaining0 : Z) (n : nat) :
  0 <= timeRemaining0 -> timeRemaining0 <= Z.of_nat n ->
  formatTime (timeLeft timeRemaining0 n) = "0m".
Proof.
  intros H0 Hn. rewrite PoolingFacts.timeLeft_closed_form by exact H0.
  rewrite Z.max_l by lia. reflexivity.
Qed.

Lemma countdown_ends_at_0m_witness : formatTime (timeLeft 2 5) = "0m".
Proof. apply (countdown_ends_at_0m 2 5); simpl; lia. Defined.

End FormatTimeFacts.
